(** * vdirsyncer.utils: a shallow embedding of [vdirsyncer/utils/__init__.py]

    The development models the mtime-based etag helpers
    ([get_etag_from_file], [get_etag_from_fileobject]), the order-preserving
    duplicate filter [uniq] and the memoising descriptor [cached_property].

    Python values are modelled as follows:
    - [int] is [Z] (unbounded);
    - [float] is an IEEE 754 binary64 value, [spec_float] with precision 53
      and maximal exponent 1024;
    - [str] is [string];
    - a [set] of hashable values is a [gset], an instance [__dict__] is a
      [gmap string value];
    - code that raises is a computation in a state-and-exception monad over
      an explicit world. *)

From Stdlib Require Import ZArith Lia List Ascii String Decimal DecimalString DecimalPos DecimalN.
From Stdlib Require Import Floats.SpecFloat.
From stdpp Require Import base decidable option list gmap sets strings.

Set Default Proof Using "Type".

(** ** [uniq]: filter duplicates, keep the order *)

Section uniq.
Context {A : Type} `{Countable A}.

(** The body of the generator: [d] is the set of values seen so far, the
    result is the sequence of yielded values. *)
Fixpoint uniq_loop (d : gset A) (s : list A) : list A :=
  match s with
  | [] => []
  | x :: s' =>
      if decide (x ∈ d) then uniq_loop d s'
      else x :: uniq_loop ({[x]} ∪ d) s'
  end.

Definition uniq (s : list A) : list A := uniq_loop ∅ s.

(** Specification: the element at index [i] is kept exactly when it does
    not occur at a smaller index; [seen] are the elements before [s]. *)
Definition first_occurrences_after (seen s : list A) : list A :=
  (filter (λ ix : nat * A, ix.2 ∉ seen ++ take ix.1 s) (imap pair s)).*2.

Definition first_occurrences (s : list A) : list A :=
  first_occurrences_after [] s.
End uniq.

(** ** Python exceptions and results *)

Inductive errno := ENOENT | EACCES | EBADF.

Inductive exn :=
  | OSError (code : errno) (filename : option string)
  | OverflowError
  | ValueError
  | AttributeError (attr : string).

Inductive result (A : Type) :=
  | Ok (a : A)
  | Raise (e : exn).
Arguments Ok {A} a.
Arguments Raise {A} e.

(** ** Numbers: [int], [float] and the format specification [.9f] *)

Module Float.
(** binary64 *)
Definition prec : Z := 53.
Definition emax : Z := 1024.

(** [float(n)] for an [int] [n]: the nearest double, ties to even; an
    [int] that rounds beyond the largest double raises [OverflowError]. *)
Definition of_int (n : Z) : result spec_float :=
  match binary_normalize prec emax n 0 false with
  | S754_infinity _ => Raise OverflowError
  | x => Ok x
  end.

(** [round_half_even num den] is the integer nearest to [num / den]
    (for [0 <= num], [0 < den]), ties going to the even neighbour. *)
Definition round_half_even (num den : Z) : Z :=
  let q := (num / den)%Z in
  match (2 * (num mod den) ?= den)%Z with
  | Lt => q
  | Gt => (q + 1)%Z
  | Eq => if Z.even q then q else (q + 1)%Z
  end.

(** [scaled9 m e]: the value [m * 2^e * 10^9] rounded to an integer, that
    is the magnitude of the float counted in units of 10^-9. *)
Definition scaled9 (m : positive) (e : Z) : Z :=
  if (0 <=? e)%Z then (Z.pos m * 2 ^ e * 10 ^ 9)%Z
  else round_half_even (Z.pos m * 10 ^ 9) (2 ^ (- e)).

(** The float has an integral value. *)
Definition integral (x : spec_float) : bool :=
  match x with
  | S754_zero _ => true
  | S754_finite _ m e =>
      if (0 <=? e)%Z then true else (Z.pos m mod 2 ^ (- e) =? 0)%Z
  | _ => false
  end.

(** The magnitude of an integral float. *)
Definition magnitude (x : spec_float) : Z :=
  match x with
  | S754_finite _ m e =>
      if (0 <=? e)%Z then (Z.pos m * 2 ^ e)%Z else (Z.pos m / 2 ^ (- e))%Z
  | _ => 0%Z
  end.

(** [a] rounded to 53 significant bits, ties to even: the value of the
    double nearest to the natural number [a]. *)
Definition nearest_double_int (a : Z) : Z :=
  let k := (Z.log2 a + 1 - prec)%Z in
  if (k <=? 0)%Z then a else (round_half_even a (2 ^ k) * 2 ^ k)%Z.

(** The sticky bit after [k] right shifts of [m]: a nonzero bit was
    shifted out. *)
Definition sticky (m : Z) (k : nat) : bool :=
  negb (m mod 2 ^ (Z.of_nat k) =? 0)%Z.

Definition sign_bit (x : spec_float) : bool :=
  match x with
  | S754_zero s | S754_infinity s | S754_finite s _ _ => s
  | S754_nan => false
  end.

Definition is_finite (x : spec_float) : bool :=
  match x with
  | S754_zero _ | S754_finite _ _ _ => true
  | _ => false
  end.
End Float.

Module Fmt.
Definition digit_char (d : Z) : ascii := ascii_of_nat (48 + Z.to_nat d).

Definition is_digit (c : ascii) : bool :=
  let n := nat_of_ascii c in (48 <=? n)%nat && (n <=? 57)%nat.

(** Decimal digits of a natural number, most significant first, without
    leading zeros (["0"] for zero). *)
Definition decimal (n : Z) : list ascii :=
  list_ascii_of_string (NilEmpty.string_of_uint (N.to_uint (Z.to_N n))).

(** The [k] least significant decimal digits of [r], zero padded. *)
Fixpoint fixed_digits (k : nat) (r : Z) : list ascii :=
  match k with
  | O => []
  | S k' => fixed_digits k' (r / 10) ++ [digit_char (r mod 10)]
  end.

Definition sign (s : bool) : list ascii :=
  if s then ["-"%char] else [].

(** [format(x, '.9f')] for a float [x]. *)
Definition float_9f (x : spec_float) : string :=
  match x with
  | S754_nan => "nan"
  | S754_infinity s => string_of_list_ascii (sign s ++ list_ascii_of_string "inf")
  | S754_zero s =>
      string_of_list_ascii (sign s ++ decimal 0 ++ "."%char :: fixed_digits 9 0)
  | S754_finite s m e =>
      let q := Float.scaled9 m e in
      string_of_list_ascii
        (sign s ++ decimal (q / 10 ^ 9) ++ "."%char :: fixed_digits 9 (q mod 10 ^ 9))
  end.

(** The values [mtime] ranges over in [get_etag_from_file]. *)
Inductive number :=
  | PyInt (n : Z)
  | PyFloat (x : spec_float).

(** ['{:.9f}'.format(v)]: an [int] is converted to [float] first. *)
Definition format_9f (v : number) : result string :=
  match v with
  | PyFloat x => Ok (float_9f x)
  | PyInt n =>
      match Float.of_int n with
      | Ok x => Ok (float_9f x)
      | Raise e => Raise e
      end
  end.

(** The shape [<digits>.<exactly 9 digits>]. *)
Fixpoint split_at_dot (s : list ascii) : option (list ascii * list ascii) :=
  match s with
  | [] => None
  | c :: s' =>
      if Ascii.eqb c "." then Some ([], s')
      else match split_at_dot s' with
           | Some (a, b) => Some (c :: a, b)
           | None => None
           end
  end.

Definition token_shape (t : string) : bool :=
  match split_at_dot (list_ascii_of_string t) with
  | Some (a, b) =>
      negb (Nat.eqb (length a) 0) && forallb is_digit a
      && Nat.eqb (length b) 9 && forallb is_digit b
  | None => false
  end.
End Fmt.

(** ** The world: file system, open files, platform *)

(** What [os.stat] reports for an inode. [st_mtime_ns] is absent on
    interpreters whose [stat_result] lacks the attribute. *)
Record stat_result := {
  st_mode : Z;
  st_ino : nat;
  st_size : Z;
  st_mtime : spec_float;
  st_mtime_ns : option Z;
}.

(** The modification time the system would stamp on a write. *)
Record timestamp := {
  ts_seconds : spec_float;
  ts_ns : option Z;
}.

Record inode := {
  i_data : list Byte.byte;
  i_mode : Z;
  i_mtime : timestamp;
  i_durable : bool;
}.

(** What a path resolves to. *)
Inductive dirent :=
  | Entry (ino : nat)
  | NoAccess.

(** A buffered Python file object: [f.name], [f.fileno()], the bytes
    written but not flushed, and whether it was closed. *)
Record fileobject := {
  fo_name : string;
  fo_fd : Z;
  fo_buffer : list Byte.byte;
  fo_closed : bool;
}.

(** The primitive operations a run performs, in order. *)
Inductive event :=
  | EvFlush (f : nat)
  | EvFsync (fd : Z)
  | EvStat (path : string).

Record world := {
  sys_platform : string;
  w_paths : gmap string dirent;
  w_inodes : gmap nat inode;
  w_fds : gmap Z nat;
  w_objects : gmap nat fileobject;
  w_now : timestamp;
  w_trace : list event;
}.

(** The part of the world that lives on disk. *)
Definition filesystem (w : world) : gmap string dirent * gmap nat inode :=
  (w_paths w, w_inodes w).

Definition log (ev : event) (w : world) : world :=
  {| sys_platform := sys_platform w; w_paths := w_paths w;
     w_inodes := w_inodes w; w_fds := w_fds w; w_objects := w_objects w;
     w_now := w_now w; w_trace := w_trace w ++ [ev] |}.

Definition set_inodes (m : gmap nat inode) (w : world) : world :=
  {| sys_platform := sys_platform w; w_paths := w_paths w;
     w_inodes := m; w_fds := w_fds w; w_objects := w_objects w;
     w_now := w_now w; w_trace := w_trace w |}.

Definition set_paths (m : gmap string dirent) (w : world) : world :=
  {| sys_platform := sys_platform w; w_paths := m;
     w_inodes := w_inodes w; w_fds := w_fds w; w_objects := w_objects w;
     w_now := w_now w; w_trace := w_trace w |}.

Definition set_objects (m : gmap nat fileobject) (w : world) : world :=
  {| sys_platform := sys_platform w; w_paths := w_paths w;
     w_inodes := w_inodes w; w_fds := w_fds w; w_objects := m;
     w_now := w_now w; w_trace := w_trace w |}.

(** Computations that read and change the world and may raise. The world
    reached when an exception is raised is kept. *)
Definition io (A : Type) : Type := world → result A * world.

Definition ret {A} (a : A) : io A := λ w, (Ok a, w).
Definition raise {A} (e : exn) : io A := λ w, (Raise e, w).
Definition bind {A B} (c : io A) (k : A → io B) : io B :=
  λ w, match c w with
       | (Ok a, w') => k a w'
       | (Raise e, w') => (Raise e, w')
       end.
Definition lift {A} (r : result A) : io A := λ w, (r, w).

#[export] Instance io_ret : MRet io := @ret.
#[export] Instance io_bind : MBind io := λ A B k c, bind c k.

(** [sys.platform] *)
Definition platform : io string := λ w, (Ok (sys_platform w), w).

Module os.
Definition stat_of (ino : nat) (nd : inode) : stat_result :=
  {| st_mode := i_mode nd; st_ino := ino;
     st_size := Z.of_nat (length (i_data nd));
     st_mtime := ts_seconds (i_mtime nd);
     st_mtime_ns := ts_ns (i_mtime nd) |}.

(** The metadata query itself, without its trace entry. *)
Definition lookup_stat (w : world) (path : string) : result stat_result :=
  match w_paths w !! path with
  | None => Raise (OSError ENOENT (Some path))
  | Some NoAccess => Raise (OSError EACCES (Some path))
  | Some (Entry ino) =>
      match w_inodes w !! ino with
      | Some nd => Ok (stat_of ino nd)
      | None => Raise (OSError ENOENT (Some path))
      end
  end.

(** The modification-time metadata of a path: both representations, as
    far as the path can be queried. *)
Definition mtime_metadata (w : world) (path : string)
  : option (spec_float * option Z) :=
  match lookup_stat w path with
  | Ok st => Some (st_mtime st, st_mtime_ns st)
  | Raise _ => None
  end.

(** [os.stat(path)] *)
Definition stat (path : string) : io stat_result :=
  λ w, (lookup_stat w path, log (EvStat path) w).

(** [os.fsync(fd)]: the inode behind [fd] reaches stable storage. *)
Definition fsync (fd : Z) : io unit :=
  λ w, let w := log (EvFsync fd) w in
       match w_fds w !! fd with
       | None => (Raise (OSError EBADF None), w)
       | Some ino =>
           match w_inodes w !! ino with
           | None => (Raise (OSError EBADF None), w)
           | Some nd =>
               let nd' := {| i_data := i_data nd; i_mode := i_mode nd;
                             i_mtime := i_mtime nd; i_durable := true |} in
               (Ok tt, set_inodes (<[ino := nd']> (w_inodes w)) w)
           end
       end.

(** [os.rename(src, dst)]: the directory entry moves, the inode and its
    metadata stay. Used by the callers of the etag functions. *)
Definition rename (src dst : string) : io unit :=
  λ w, match w_paths w !! src with
       | Some (Entry ino) =>
           (Ok tt, set_paths (<[dst := Entry ino]> (delete src (w_paths w))) w)
       | Some NoAccess => (Raise (OSError EACCES (Some src)), w)
       | None => (Raise (OSError ENOENT (Some src)), w)
       end.
End os.

Module file.
(** [f.name] *)
Definition name (f : nat) : io string :=
  λ w, match w_objects w !! f with
       | Some o => (Ok (fo_name o), w)
       | None => (Raise (AttributeError "name"), w)
       end.

(** [f.fileno()] *)
Definition fileno (f : nat) : io Z :=
  λ w, match w_objects w !! f with
       | Some o => if fo_closed o then (Raise ValueError, w)
                   else (Ok (fo_fd o), w)
       | None => (Raise (AttributeError "fileno"), w)
       end.

(** [f.flush()]: the buffered bytes are written to the inode behind the
    descriptor, which stamps its modification time; an empty buffer
    writes nothing. *)
Definition flush (f : nat) : io unit :=
  λ w, let w := log (EvFlush f) w in
       match w_objects w !! f with
       | None => (Raise (AttributeError "flush"), w)
       | Some o =>
           if fo_closed o then (Raise ValueError, w)
           else match fo_buffer o with
                | [] => (Ok tt, w)
                | _ :: _ =>
                    match w_fds w !! fo_fd o with
                    | None => (Raise (OSError EBADF None), w)
                    | Some ino =>
                        match w_inodes w !! ino with
                        | None => (Raise (OSError EBADF None), w)
                        | Some nd =>
                            let nd' := {| i_data := i_data nd ++ fo_buffer o;
                                          i_mode := i_mode nd;
                                          i_mtime := w_now w;
                                          i_durable := false |} in
                            let o' := {| fo_name := fo_name o; fo_fd := fo_fd o;
                                         fo_buffer := []; fo_closed := false |} in
                            (Ok tt,
                             set_objects (<[f := o']> (w_objects w))
                               (set_inodes (<[ino := nd']> (w_inodes w)) w))
                        end
                    end
                end
       end.
End file.

(** ** [get_etag_from_file] and [get_etag_from_fileobject] *)

(** [getattr(stat, 'st_mtime_ns', None)], then the fallback on
    [stat.st_mtime] when that is [None]. *)
Definition chosen_mtime (stat : stat_result) : Fmt.number :=
  match st_mtime_ns stat with
  | Some ns => Fmt.PyInt ns
  | None => Fmt.PyFloat (st_mtime stat)
  end.

Definition etag_of_stat (stat : stat_result) : result string :=
  Fmt.format_9f (chosen_mtime stat).

Definition get_etag_from_file (fpath : string) : io string :=
  stat ← os.stat fpath;
  lift (etag_of_stat stat).

Definition get_etag_from_fileobject (f : nat) : io string :=
  file.flush f;;
  p ← platform;
  (if String.eqb p "win32"
   then fd ← file.fileno f; os.fsync fd
   else mret tt);;
  name ← file.name f;
  get_etag_from_file name.

(** ** [cached_property] *)

Module cached.
(** Python values as far as the descriptor looks at them: only object
    identity matters. *)
Inductive value :=
  | VNone
  | VInt (n : Z)
  | VStr (s : string)
  | VObject (id : nat).

(** [_missing = object()]: one object, allocated when the module is
    loaded. *)
Definition missing_id : nat := 0.
Definition _missing : value := VObject missing_id.

(** [v is _missing] *)
Definition is_missing (v : value) : bool :=
  match v with
  | VObject id => Nat.eqb id missing_id
  | _ => false
  end.

(** Instance dictionaries, by object. *)
Abbreviation heap := (gmap nat (gmap string value)).

(** The interpreter state: the heap and the log of the invocations of
    wrapped functions (name of the property, receiver). *)
Record pstate := {
  st_heap : heap;
  st_calls : list (string * nat);
}.

(** A Python function of one argument: it may change the heap and may
    raise. *)
Record pyfunction := {
  fn_name : string;
  fn_module : string;
  fn_doc : option string;
  fn_call : nat → heap → result value * heap;
}.

Record cached_property := {
  __name__ : string;
  __module__ : string;
  __doc__ : option string;
  func : pyfunction;
}.

(** [a or b] on optional strings: [None] and the empty string are
    falsy. *)
Definition or_else (a : option string) (b : option string) : option string :=
  match a with
  | Some s => if String.eqb s EmptyString then b else a
  | None => b
  end.

Definition __init__ (func : pyfunction) (name doc : option string)
  : cached_property :=
  {| __name__ := default (fn_name func) (or_else name (Some (fn_name func)));
     __module__ := fn_module func;
     __doc__ := or_else doc (fn_doc func);
     func := func |}.

(** [self.__get__(obj, type)]: the descriptor itself when [obj] is
    [None], the property's value otherwise. *)
Definition __get__ (self : cached_property) (obj : option nat) (st : pstate)
  : result (cached_property + value) * pstate :=
  match obj with
  | None => (Ok (inl self), st)
  | Some o =>
      match st_heap st !! o with
      | None => (Raise (AttributeError "__dict__"), st)
      | Some d =>
          let value := default _missing (d !! __name__ self) in
          if is_missing value then
            let calls := st_calls st ++ [(__name__ self, o)] in
            match fn_call (func self) o (st_heap st) with
            | (Raise e, h) => (Raise e, {| st_heap := h; st_calls := calls |})
            | (Ok value, h) =>
                match h !! o with
                | None =>
                    (Raise (AttributeError "__dict__"),
                     {| st_heap := h; st_calls := calls |})
                | Some d' =>
                    (Ok (inr value),
                     {| st_heap := <[o := <[__name__ self := value]> d']> h;
                        st_calls := calls |})
                end
            end
          else (Ok (inr value), st)
      end
  end.

(** [n] accesses in a row, nothing else touching the object between
    them. *)
Fixpoint get_many (self : cached_property) (o : nat) (n : nat) (st : pstate)
  : list (result (cached_property + value)) * pstate :=
  match n with
  | O => ([], st)
  | S n' =>
      let '(r, st') := __get__ self (Some o) st in
      let '(rs, st'') := get_many self o n' st' in
      (r :: rs, st'')
  end.

(** How often the property [name] was computed for object [o]. *)
Definition invocations (name : string) (o : nat) (st : pstate) : nat :=
  length (filter (λ c, c = (name, o)) (st_calls st)).

(** Samples: a function that counts the entries of the receiver's
    dictionary, one that returns the sentinel, and an object (5) with
    one ordinary attribute. *)
Definition count_attrs : pyfunction :=
  {| fn_name := "size"; fn_module := "vdirsyncer.storage"; fn_doc := None;
     fn_call := λ o h,
       match h !! o with
       | Some d => (Ok (VInt (Z.of_nat (size d))), h)
       | None => (Raise (AttributeError "__dict__"), h)
       end |}.

Definition return_missing : pyfunction :=
  {| fn_name := "odd"; fn_module := "vdirsyncer.storage"; fn_doc := None;
     fn_call := λ o h, (Ok _missing, h) |}.

Definition fresh : pstate :=
  {| st_heap := {[5%nat := {["path" := VStr "/tmp"]}]}; st_calls := [] |}.
End cached.

(** The instants "equivalent" in both representations: the float is
    finite and its exact value, in units of 10^-9 seconds, is the count
    [ns]. *)
Definition same_instant (ns : Z) (x : spec_float) : bool :=
  match x with
  | S754_zero _ => (ns =? 0)%Z
  | S754_finite s m e =>
      let sm := if s then Z.neg m else Z.pos m in
      if (0 <=? e)%Z then (sm * 2 ^ e * 10 ^ 9 =? ns)%Z
      else (sm * 10 ^ 9 =? ns * 2 ^ (- e))%Z
  | _ => false
  end.

(** The timestamp of a [stat_result] denotes an instant at or after the
    epoch that the formatter can take. *)
Definition nonneg_timestamp (stat : stat_result) : Prop :=
  match st_mtime_ns stat with
  | Some ns => (0 ≤ ns < 2 ^ 1023)%Z
  | None => Float.is_finite (st_mtime stat) = true ∧
            Float.sign_bit (st_mtime stat) = false
  end.

(** ** Sample worlds *)

Module sample.
(** 1500000000.5 seconds after the epoch, as a double and as a count of
    nanoseconds. *)
Definition half_past : spec_float := S754_finite false 6291456002097152 (-22).
Definition half_past_ns : Z := 1500000000500000000.

(** One second before the epoch. *)
Definition before_epoch : spec_float := S754_finite true 4503599627370496 (-52).
Definition before_epoch_ns : Z := (-1000000000)%Z.

Definition stamp_ns : timestamp :=
  {| ts_seconds := half_past; ts_ns := Some half_past_ns |}.
Definition stamp_seconds : timestamp :=
  {| ts_seconds := half_past; ts_ns := None |}.
Definition stamp_before_epoch : timestamp :=
  {| ts_seconds := before_epoch; ts_ns := Some before_epoch_ns |}.

Definition abc : list Byte.byte := [Byte.x61; Byte.x62; Byte.x63].

(** A directory holding the file [item.ics] (inode 7) stamped [ts], an
    unreadable entry, and a temporary file [item.tmp] (inode 9) open for
    writing as file object 1 on descriptor 3 with three unflushed bytes. *)
Definition world_at (plat : string) (ts now : timestamp) : world :=
  {| sys_platform := plat;
     w_paths := <["item.ics" := Entry 7]>
                  (<["item.tmp" := Entry 9]> {["secret" := NoAccess]});
     w_inodes := <[7%nat := {| i_data := abc; i_mode := 33188; i_mtime := ts;
                               i_durable := true |}]>
                   {[9%nat := {| i_data := []; i_mode := 33152; i_mtime := ts;
                                 i_durable := false |}]};
     w_fds := {[3%Z := 9%nat]};
     w_objects := {[1%nat := {| fo_name := "item.tmp"; fo_fd := 3;
                                fo_buffer := abc; fo_closed := false |}]};
     w_now := now;
     w_trace := [] |}.

Definition linux : world := world_at "linux" stamp_ns stamp_ns.
Definition win32 : world := world_at "win32" stamp_ns stamp_ns.
Definition legacy : world := world_at "linux2" stamp_seconds stamp_seconds.
Definition old_file : world := world_at "linux" stamp_before_epoch stamp_ns.

(** The same file, seen later: other events were logged and the clock
    moved on, the file was not touched. *)
Definition linux_later : world :=
  log (EvStat "elsewhere") (world_at "linux" stamp_ns stamp_before_epoch).
End sample.

(** ** [split_sequence] and [split_dict] *)

(** The loop of [split_sequence]: [ab] holds the two lists built so far,
    every item is appended to one of them. *)
Definition split_sequence {A : Type} (s : list A) (f : A → bool)
  : list A * list A :=
  fold_left
    (λ (ab : list A * list A) item,
       if f item then (ab.1 ++ [item], ab.2) else (ab.1, ab.2 ++ [item]))
    s ([], []).

(** [dict(items)]: of two items with the same key the later one stays. *)
Definition dict_of_items `{Countable K} {V : Type} (items : list (K * V))
  : gmap K V :=
  list_to_map (reverse items).

(** [split_dict] on the items in the order [iteritems(d)] yields them. *)
Definition split_dict_items `{Countable K} {V : Type} (items : list (K * V))
    (f : K → bool) : gmap K V * gmap K V :=
  let '(a, b) := split_sequence items (λ item, f item.1) in
  (dict_of_items a, dict_of_items b).

Definition split_dict `{Countable K} {V : Type} (d : gmap K V) (f : K → bool)
  : gmap K V * gmap K V :=
  split_dict_items (map_to_list d) f.

(** ** More sample worlds *)

Module sample2.
(** [sample.linux] with [item.ics] modified 100 ns later. *)
Definition stamp_plus_100ns : timestamp :=
  {| ts_seconds := sample.half_past;
     ts_ns := Some (sample.half_past_ns + 100)%Z |}.

Definition linux_plus_100ns : world :=
  sample.world_at "linux" stamp_plus_100ns sample.stamp_ns.
End sample2.

(** More sample functions for [cached_property]: a function that always
    raises, and a second function for a property of the same name. *)
Module cached_sample.
Definition always_raises : cached.pyfunction :=
  {| cached.fn_name := "broken"; cached.fn_module := "vdirsyncer.storage";
     cached.fn_doc := None;
     cached.fn_call := λ o h, (Raise ValueError, h) |}.

Definition constant_seven : cached.pyfunction :=
  {| cached.fn_name := "seven"; cached.fn_module := "vdirsyncer.storage";
     cached.fn_doc := None;
     cached.fn_call := λ o h, (Ok (cached.VInt 7), h) |}.
End cached_sample.

(** ** [get_class_init_specs] and [get_class_init_args] *)

Module introspect.
(** The exceptions of this part: [inspect.getargspec] on something that
    is not a Python function, [next] on an exhausted generator, and the
    recursion limit. *)
Inductive error := TypeError | StopIteration | RecursionError.

Inductive outcome (A : Type) :=
  | Return (a : A)
  | Throw (e : error).
Arguments Return {A} a.
Arguments Throw {A} e.

(** An index of a slice, clamped as Python does for a list of length
    [len]: a negative index counts from the end. *)
Definition slice_index (len i : Z) : Z :=
  if (i <? 0)%Z then Z.max (i + len) 0 else Z.min i len.

(** [l[start:stop]] *)
Definition slice {A : Type} (l : list A) (start stop : Z) : list A :=
  let len := Z.of_nat (length l) in
  let a := slice_index len start in
  let b := slice_index len stop in
  take (Z.to_nat (b - a)) (drop (Z.to_nat a) l).

(** The result of [inspect.getargspec]. *)
Record argspec := {
  args : list string;
  varargs : option string;
  keywords : option string;
  defaults : option (list cached.value);
}.

(** What the functions look at in a class: [cls.__mro__[1:]], the
    result of [inspect.getargspec(cls.__init__)] ([None] when it raises
    [TypeError]) and [cls.__init__.__objclass__] when [cls.__init__] has
    that attribute. Classes are referred to by number. *)
Record pyclass := {
  mro_tail : list nat;
  init_argspec : option argspec;
  init_objclass : option nat;
}.

(** [get_class_init_specs(cls, stop_at)]; [depth] is the number of calls
    the recursion limit still allows. *)
Fixpoint get_class_init_specs (classes : nat → pyclass) (depth : nat)
    (cls stop_at : nat) : outcome (list argspec) :=
  match depth with
  | O => Throw RecursionError
  | S depth' =>
      if Nat.eqb cls stop_at then Return []
      else
        match init_argspec (classes cls) with
        | None => Throw TypeError
        | Some spec =>
            match mro_tail (classes cls) with
            | [] => Throw StopIteration
            | x :: _ =>
                let supercls := default x (init_objclass (classes x)) in
                match get_class_init_specs classes depth' supercls stop_at with
                | Return specs => Return (spec :: specs)
                | Throw e => Throw e
                end
            end
        end
  end.

(** The body of the loop of [get_class_init_args]. *)
Definition update_args (acc : gset string * gset string) (spec : argspec)
  : gset string * gset string :=
  (acc.1 ∪ list_to_set (drop 1 (args spec)),
   acc.2 ∪ list_to_set
             (slice (args spec) 1
                (- Z.of_nat (length (default [] (defaults spec)))))).

Definition get_class_init_args (classes : nat → pyclass) (depth : nat)
    (cls stop_at : nat) : outcome (gset string * gset string) :=
  match depth with
  | O => Throw RecursionError
  | S depth' =>
      match get_class_init_specs classes depth' cls stop_at with
      | Return specs => Return (fold_left update_args specs (∅, ∅))
      | Throw e => Throw e
      end
  end.

(** Sample classes: 0 is [object]; 1 is a storage base class with
    [__init__(self, instance_name=None, read_only=False)]; 2 derives from
    1 with [__init__(self, path, fileext, encoding='utf-8', **kwargs)];
    3 derives from 1 with [__init__(self, url, username, **kwargs)], no
    defaults. *)
Definition sample_classes (c : nat) : pyclass :=
  match c with
  | 1 => {| mro_tail := [0];
            init_argspec :=
              Some {| args := ["self"; "instance_name"; "read_only"]%string;
                      varargs := None; keywords := None;
                      defaults := Some [cached.VNone; cached.VInt 0] |};
            init_objclass := None |}
  | 2 => {| mro_tail := [1; 0];
            init_argspec :=
              Some {| args := ["self"; "path"; "fileext"; "encoding"]%string;
                      varargs := None; keywords := Some "kwargs"%string;
                      defaults := Some [cached.VStr "utf-8"] |};
            init_objclass := None |}
  | 3 => {| mro_tail := [1; 0];
            init_argspec :=
              Some {| args := ["self"; "url"; "username"]%string;
                      varargs := None; keywords := Some "kwargs"%string;
                      defaults := None |};
            init_objclass := None |}
  | _ => {| mro_tail := []; init_argspec := None; init_objclass := Some 0 |}
  end%nat.
End introspect.

(** ** [checkdir] and [checkfile] *)

Module checks.
(** The exceptions of this part: the two the functions raise themselves,
    and whatever [os.makedirs] or [open] raise. *)
Inductive check_exn :=
  | IOError (msg : string)
  | CollectionNotFound (msg : string)
  | Builtin (e : exn).

Inductive outcome (A : Type) :=
  | Done (a : A)
  | Fail (e : check_exn).
Arguments Done {A} a.
Arguments Fail {A} e.

(** [stat.S_IFMT], [stat.S_IFDIR], [stat.S_IFREG] *)
Definition S_IFMT : Z := 61440.
Definition S_IFDIR : Z := 16384.
Definition S_IFREG : Z := 32768.

(** [os.path.exists], [os.path.isdir], [os.path.isfile]: a metadata query
    that answers [False] when the query fails. These reads are not
    entered in the trace. *)
Definition exists_ (w : world) (path : string) : bool :=
  match os.lookup_stat w path with
  | Ok _ => true
  | Raise _ => false
  end.

Definition isdir (w : world) (path : string) : bool :=
  match os.lookup_stat w path with
  | Ok st => (Z.land (st_mode st) S_IFMT =? S_IFDIR)%Z
  | Raise _ => false
  end.

Definition isfile (w : world) (path : string) : bool :=
  match os.lookup_stat w path with
  | Ok st => (Z.land (st_mode st) S_IFMT =? S_IFREG)%Z
  | Raise _ => false
  end.

Definition lift_io {A : Type} (c : io A) : world → outcome A * world :=
  λ w, match c w with
       | (Ok a, w') => (Done a, w')
       | (Raise e, w') => (Fail (Builtin e), w')
       end.

Section with_os.
(** [os.makedirs(path, mode)], [with open(path, 'wb'): pass] and
    [os.path.dirname], as the platform provides them. *)
Variable makedirs : string → Z → io unit.
Variable open_wb : string → io unit.
Variable dirname : string → string.

Definition checkdir (path : string) (create : bool) (mode : Z)
  : world → outcome unit * world :=
  λ w,
    if negb (isdir w path) then
      if exists_ w path then
        (Fail (IOError (path +:+ " is not a directory.")), w)
      else if create then lift_io (makedirs path mode) w
      else
        (Fail (CollectionNotFound ("Directory " +:+ path +:+ " does not exist.")),
         w)
    else (Done tt, w).

Definition checkfile (path : string) (create : bool)
  : world → outcome unit * world :=
  λ w,
    match checkdir (dirname path) create 488 w with
    | (Fail e, w1) => (Fail e, w1)
    | (Done _, w1) =>
        if negb (isfile w1 path) then
          if exists_ w1 path then
            (Fail (IOError (path +:+ " is not a file.")), w1)
          else if create then lift_io (open_wb path) w1
          else
            (Fail (CollectionNotFound ("File " +:+ path +:+ " does not exist.")),
             w1)
        else (Done tt, w1)
    end.
End with_os.

(** A sample platform for the examples: [makedirs] enters a directory
    under the path when nothing is there (directories need no parent in
    this flat sample), [open] for writing makes an empty regular file or
    empties the one that is there, and [dirname] cuts after the last
    slash. *)
Definition sample_makedirs (path : string) (mode : Z) : io unit :=
  λ w, match w_paths w !! path with
       | Some _ => (Raise (OSError EACCES (Some path)), w)
       | None =>
           let ino := fresh (dom (w_inodes w)) in
           let nd := {| i_data := []; i_mode := Z.lor S_IFDIR mode;
                        i_mtime := w_now w; i_durable := false |} in
           (Ok tt,
            set_paths (<[path := Entry ino]> (w_paths w))
              (set_inodes (<[ino := nd]> (w_inodes w)) w))
       end.

Definition sample_open_wb (path : string) : io unit :=
  λ w, match w_paths w !! path with
       | Some NoAccess => (Raise (OSError EACCES (Some path)), w)
       | Some (Entry ino) =>
           match w_inodes w !! ino with
           | Some nd =>
               let nd' := {| i_data := []; i_mode := i_mode nd;
                             i_mtime := w_now w; i_durable := false |} in
               (Ok tt, set_inodes (<[ino := nd']> (w_inodes w)) w)
           | None => (Raise (OSError ENOENT (Some path)), w)
           end
       | None =>
           let ino := fresh (dom (w_inodes w)) in
           let nd := {| i_data := []; i_mode := Z.lor S_IFREG 420;
                        i_mtime := w_now w; i_durable := false |} in
           (Ok tt,
            set_paths (<[path := Entry ino]> (w_paths w))
              (set_inodes (<[ino := nd]> (w_inodes w)) w))
       end.

Fixpoint dirname_chars (s : list ascii) : list ascii :=
  match s with
  | [] => []
  | c :: s' =>
      if existsb (Ascii.eqb "/") s' then c :: dirname_chars s' else []
  end.

Definition sample_dirname (path : string) : string :=
  string_of_list_ascii (dirname_chars (list_ascii_of_string path)).
End checks.

(** ** Closing a file object, the clock, and two more sample worlds *)

(** The clock moves on: what a later write would be stamped with. *)
Definition set_now (now : timestamp) (w : world) : world :=
  {| sys_platform := sys_platform w; w_paths := w_paths w;
     w_inodes := w_inodes w; w_fds := w_fds w; w_objects := w_objects w;
     w_now := now; w_trace := w_trace w |}.

(** [f.close()]: what is still buffered is flushed, then the object is
    closed; closing a closed file does nothing. Callers close the
    temporary file before they move it. *)
Definition file_close (f : nat) : io unit :=
  λ w, match w_objects w !! f with
       | None => (Raise (AttributeError "close"), w)
       | Some o =>
           if fo_closed o then (Ok tt, w)
           else
             let '(r, w1) := file.flush f w in
             match w_objects w1 !! f with
             | None => (r, w1)
             | Some o1 =>
                 let o' := {| fo_name := fo_name o1; fo_fd := fo_fd o1;
                              fo_buffer := fo_buffer o1; fo_closed := true |} in
                 (r, set_objects (<[f := o']> (w_objects w1)) w1)
             end
       end.

Module sample3.
(** A [win32] world in which file object 1 has nothing buffered and sits
    on descriptor 5, which is not open, while descriptor 3 is. *)
Definition win32_bad_descriptor : world :=
  set_objects
    {[1%nat := {| fo_name := "item.tmp"; fo_fd := 5;
                  fo_buffer := []; fo_closed := false |}]}
    sample.win32.

(** [sample.old_file] on [win32]: the files are stamped one second before
    the epoch, the clock shows [sample.stamp_ns], three bytes are
    pending. *)
Definition win32_old_file : world :=
  sample.world_at "win32" sample.stamp_before_epoch sample.stamp_ns.
End sample3.

(** * Properties *)

(** ** [uniq] *)

Lemma filter_fmap_comm {A B : Type} (f : A → B) (P : B → Prop)
    `{!∀ b, Decision (P b)} (l : list A) :
  filter P (f <$> l) = f <$> filter (P ∘ f) l.
Proof.
  induction l as [|a l IH]; [done|].
  rewrite fmap_cons, !filter_cons, IH. simpl.
  by destruct (decide (P (f a))).
Qed.

Section uniq_properties.
Context {A : Type} `{Countable A}.
Implicit Types (d : gset A) (s seen : list A).

Lemma uniq_loop_elem d s x : x ∈ uniq_loop d s ↔ x ∈ s ∧ x ∉ d.
Proof.
  revert d. induction s as [|y s IH]; intros d; simpl.
  - rewrite elem_of_nil. tauto.
  - destruct (decide (y ∈ d)) as [Hy|Hy].
    + rewrite IH, elem_of_cons. split; [tauto|].
      intros [[->|Hx] Hd]; [contradiction|tauto].
    + rewrite elem_of_cons, IH, elem_of_cons, not_elem_of_union,
        not_elem_of_singleton.
      destruct (decide (x = y)) as [->|Hne]; [tauto|].
      split; [intros [?|[? [_ ?]]]; tauto|].
      intros [[?|?] ?]; [contradiction|]. right. tauto.
Qed.

Lemma uniq_loop_NoDup d s : NoDup (uniq_loop d s).
Proof.
  revert d. induction s as [|y s IH]; intros d; simpl.
  - constructor.
  - destruct (decide (y ∈ d)); [apply IH|].
    constructor; [|apply IH].
    rewrite uniq_loop_elem, not_elem_of_union, not_elem_of_singleton.
    tauto.
Qed.

Lemma uniq_loop_sublist d s : uniq_loop d s `sublist_of` s.
Proof.
  revert d. induction s as [|y s IH]; intros d; simpl.
  - constructor.
  - destruct (decide (y ∈ d)).
    + apply sublist_cons, IH.
    + apply sublist_skip, IH.
Qed.

Lemma first_occurrences_after_cons seen x s :
  first_occurrences_after seen (x :: s) =
    (if decide (x ∈ seen) then [] else [x]) ++
    first_occurrences_after (seen ++ [x]) s.
Proof.
  unfold first_occurrences_after. simpl imap.
  assert ((filter (λ ix : nat * A, ix.2 ∉ seen ++ take ix.1 (x :: s))
             (imap (pair ∘ S) s)).*2 =
          (filter (λ ix : nat * A, ix.2 ∉ (seen ++ [x]) ++ take ix.1 s)
             (imap pair s)).*2) as Hrest.
  { replace (imap (pair ∘ S) s) with (prod_map S id <$> imap pair s)
      by (rewrite fmap_imap; apply imap_ext; done).
    rewrite filter_fmap_comm, <- list_fmap_compose.
    f_equal.
    apply list_filter_iff. intros [i y]. simpl. by rewrite <- (assoc_L (++)). }
  rewrite filter_cons. simpl. rewrite app_nil_r.
  destruct (decide (x ∉ seen)) as [Hx|Hx], (decide (x ∈ seen)) as [Hx'|Hx'];
    try (exfalso; tauto).
  - rewrite fmap_cons. simpl. f_equal. exact Hrest.
  - exact Hrest.
Qed.

Lemma uniq_loop_first_occurrences d seen s :
  (∀ y, y ∈ d ↔ y ∈ seen) →
  uniq_loop d s = first_occurrences_after seen s.
Proof.
  revert d seen. induction s as [|x s IH]; intros d seen Hd.
  - done.
  - rewrite first_occurrences_after_cons. simpl.
    destruct (decide (x ∈ d)) as [Hx|Hx], (decide (x ∈ seen)) as [Hx'|Hx'];
      try (exfalso; apply Hd in Hx || apply Hd in Hx'; contradiction); simpl.
    + rewrite (IH d (seen ++ [x])); [done|].
      intros y. rewrite elem_of_app, list_elem_of_singleton, Hd.
      split; [tauto|]. intros [?| ->]; done.
    + f_equal. apply IH.
      intros y. rewrite elem_of_union, elem_of_singleton, elem_of_app,
        list_elem_of_singleton, Hd. tauto.
Qed.
End uniq_properties.

(** C9: [uniq] yields exactly the distinct elements of its input, each
    once, in the order of their first occurrence: the element at index
    [i] is yielded exactly when it does not occur before [i]; the output
    has no duplicates, has the same elements as the input and is a
    subsequence of it. *)
Theorem uniq_first_occurrences {A : Type} `{Countable A} (s : list A) :
  uniq s = first_occurrences s ∧
  NoDup (uniq s) ∧
  (∀ x, x ∈ uniq s ↔ x ∈ s) ∧
  uniq s `sublist_of` s.
Proof.
  unfold uniq. split; [|split; [|split]].
  - apply uniq_loop_first_occurrences.
    intros y. rewrite elem_of_empty, elem_of_nil. tauto.
  - apply uniq_loop_NoDup.
  - intros x. rewrite uniq_loop_elem, elem_of_empty. tauto.
  - apply uniq_loop_sublist.
Qed.

Example uniq_example : uniq [3; 1; 3; 2; 1; 4]%nat = [3; 1; 2; 4]%nat.
Proof. vm_compute. reflexivity. Qed.

(** ** Rounding an [int] to a double *)

Section shift_right.
Local Open Scope Z_scope.

Lemma iter_pos_nat {A : Type} (f : A → A) (p : positive) (x : A) :
  SpecFloat.iter_pos f p x = Nat.iter (Pos.to_nat p) f x.
Proof.
  revert x. induction p as [p IH|p IH|]; intros x; cbn [SpecFloat.iter_pos].
  - rewrite !IH, Pos2Nat.inj_xI, <- Nat.iter_succ_r.
    replace (S (2 * Pos.to_nat p))%nat with (Pos.to_nat p + S (Pos.to_nat p))%nat by lia.
    by rewrite Nat.iter_add.
  - rewrite !IH, Pos2Nat.inj_xO.
    replace (2 * Pos.to_nat p)%nat with (Pos.to_nat p + Pos.to_nat p)%nat by lia.
    by rewrite Nat.iter_add.
  - done.
Qed.

Lemma shr_1_nonneg (m : Z) (r s : bool) :
  0 <= m →
  shr_1 {| shr_m := m; shr_r := r; shr_s := s |} =
    {| shr_m := m / 2; shr_r := Z.odd m; shr_s := r || s |}.
Proof.
  intros Hm. rewrite <- Z.div2_div.
  destruct m as [|[p|p|]|p]; done.
Qed.

Lemma sticky_succ (m : Z) (k : nat) :
  Float.sticky m (S k) = Z.testbit m (Z.of_nat k) || Float.sticky m k.
Proof.
  unfold Float.sticky. rewrite Nat2Z.inj_succ, Z.pow_succ_r by lia.
  rewrite (Z.mul_comm 2), Z.rem_mul_r by lia.
  pose proof (Z.testbit_spec' m (Z.of_nat k) ltac:(lia)) as Hb.
  rewrite <- Hb.
  pose proof (Z.mod_pos_bound m (2 ^ Z.of_nat k) ltac:(lia)) as Hlow.
  assert (0 < 2 ^ Z.of_nat k) by lia.
  destruct (Z.testbit m (Z.of_nat k)); simpl Z.b2z.
  - rewrite orb_true_l. apply negb_true_iff, Z.eqb_neq. lia.
  - rewrite orb_false_l. f_equal. f_equal. lia.
Qed.

Lemma shr_iter (m : Z) (r s : bool) (k : nat) :
  0 <= m →
  Nat.iter (S k) shr_1 {| shr_m := m; shr_r := r; shr_s := s |} =
    {| shr_m := m / 2 ^ Z.of_nat (S k);
       shr_r := Z.testbit m (Z.of_nat k);
       shr_s := r || s || Float.sticky m k |}.
Proof.
  intros Hm. induction k as [|k IH].
  - change (Nat.iter 1 shr_1 ?x) with (shr_1 x). rewrite shr_1_nonneg by done.
    rewrite Z.bit0_odd. unfold Float.sticky. simpl Z.of_nat.
    rewrite Z.pow_0_r, Z.mod_1_r, Z.pow_1_r. simpl. by rewrite orb_false_r.
  - change (Nat.iter (S (S k)) shr_1 ?x) with (shr_1 (Nat.iter (S k) shr_1 x)).
    rewrite IH, shr_1_nonneg by (apply Z.div_pos; lia).
    f_equal.
    + rewrite Z.div_div by lia. f_equal.
      rewrite (Nat2Z.inj_succ (S k)), Z.pow_succ_r by lia. lia.
    + rewrite <- Z.bit0_odd, Z.div_pow2_bits by lia.
      f_equal.
    + rewrite sticky_succ.
      destruct r, s, (Z.testbit m (Z.of_nat k)), (Float.sticky m k); done.
Qed.

Lemma shr_pos (m : Z) (e : Z) (k : positive) :
  0 <= m →
  shr {| shr_m := m; shr_r := false; shr_s := false |} e (Z.pos k) =
    ({| shr_m := m / 2 ^ Z.pos k;
        shr_r := Z.testbit m (Z.pos k - 1);
        shr_s := Float.sticky m (Nat.pred (Pos.to_nat k)) |}, e + Z.pos k).
Proof.
  intros Hm. unfold shr. rewrite iter_pos_nat.
  destruct (Pos.to_nat k) as [|n] eqn:Hk; [lia|].
  rewrite shr_iter by done. simpl Nat.pred.
  replace (Z.of_nat (S n)) with (Z.pos k) by lia.
  replace (Z.of_nat n) with (Z.pos k - 1) by lia.
  done.
Qed.
End shift_right.

Section rounding.
Local Open Scope Z_scope.

Lemma fexp_binary64 (x : Z) : fexp 53 1024 x = Z.max (x - 53) (-1074).
Proof. reflexivity. Qed.

Lemma digits2_pos_size (p : positive) : digits2_pos p = Pos.size p.
Proof. induction p as [p IH|p IH|]; simpl; by rewrite ?IH. Qed.

Lemma digits2_pos_bounds (p : positive) :
  2 ^ (Z.pos (digits2_pos p) - 1) <= Z.pos p < 2 ^ Z.pos (digits2_pos p).
Proof.
  rewrite digits2_pos_size.
  pose proof (Pos.size_gt p) as Hgt. pose proof (Pos.size_le p) as Hle.
  apply Pos2Z.pos_lt_pos in Hgt. apply Pos2Z.pos_le_pos in Hle.
  rewrite Pos2Z.inj_pow in Hgt, Hle.
  replace (Z.pos (Pos.size p)) with (Z.succ (Z.pos (Pos.size p) - 1)) in Hle at 1 by lia.
  rewrite Z.pow_succ_r in Hle by lia. lia.
Qed.

Lemma Zdigits2_unique (m k : Z) :
  2 ^ (k - 1) <= m < 2 ^ k → 0 < m → Zdigits2 m = k.
Proof.
  intros Hm Hpos. destruct m as [|p|p]; try lia. simpl.
  pose proof (digits2_pos_bounds p) as Hp.
  set (d := Z.pos (digits2_pos p)) in *.
  assert (0 < k).
  { destruct (Z.le_gt_cases k 0) as [Hk|]; [|done].
    assert (2 ^ k <= 2 ^ 0) by (apply Z.pow_le_mono_r; lia). simpl in *. lia. }
  destruct (Z.lt_trichotomy d k) as [Hlt|[Heq|Hgt]]; [|done|].
  - assert (2 ^ d <= 2 ^ (k - 1)) by (apply Z.pow_le_mono_r; lia). lia.
  - assert (2 ^ k <= 2 ^ (d - 1)) by (apply Z.pow_le_mono_r; lia). lia.
Qed.

Lemma round_nearest_even_shr (a e : Z) (k : positive) :
  0 <= a →
  let mrs := (shr {| shr_m := a; shr_r := false; shr_s := false |} e (Z.pos k)).1 in
  round_nearest_even (shr_m mrs) (loc_of_shr_record mrs) =
    Float.round_half_even a (2 ^ Z.pos k).
Proof.
  intros Ha. rewrite shr_pos by done. cbn [fst shr_m].
  unfold Float.round_half_even.
  set (j := Nat.pred (Pos.to_nat k)).
  assert (Z.pos k = Z.succ (Z.of_nat j)) as Hk by lia.
  replace (Z.pos k - 1) with (Z.of_nat j) by lia.
  assert (a mod 2 ^ Z.pos k =
          a mod 2 ^ Z.of_nat j + 2 ^ Z.of_nat j * Z.b2z (Z.testbit a (Z.of_nat j)))
    as Hmod.
  { rewrite Hk, Z.pow_succ_r, (Z.mul_comm 2), Z.rem_mul_r by lia.
    by rewrite Z.testbit_spec' by lia. }
  assert (2 ^ Z.pos k = 2 * 2 ^ Z.of_nat j) as Hpow
    by (rewrite Hk, Z.pow_succ_r by lia; done).
  pose proof (Z.mod_pos_bound a (2 ^ Z.of_nat j) ltac:(lia)) as Hlow.
  rewrite Hmod. unfold Float.sticky.
  destruct (Z.testbit a (Z.of_nat j)); simpl Z.b2z;
    destruct (Z.eqb_spec (a mod 2 ^ Z.of_nat j) 0) as [Hz|Hz]; simpl;
    match goal with
    | |- context [?x ?= ?y] => destruct (Z.compare_spec x y)
    end; try lia; reflexivity.
Qed.

Lemma round_half_even_bounds (a b : Z) :
  0 <= a → 0 < b →
  a / b <= Float.round_half_even a b <= a / b + 1.
Proof.
  intros Ha Hb. unfold Float.round_half_even.
  destruct (2 * (a mod b) ?= b); [destruct (Z.even (a / b))|..]; lia.
Qed.

Lemma round_half_even_exact (a b : Z) :
  0 < b → a mod b = 0 → Float.round_half_even a b = a / b.
Proof.
  intros Hb Hmod. unfold Float.round_half_even. rewrite Hmod.
  destruct (Z.compare_spec (2 * 0) b); try lia; reflexivity.
Qed.
End rounding.

Section int_to_double.
Local Open Scope Z_scope.

Lemma iter_xO_value (mx dd : positive) :
  Z.pos (Pos.iter xO mx dd) = Z.pos mx * 2 ^ Z.pos dd.
Proof.
  induction dd as [|dd IH] using Pos.peano_ind.
  - simpl. lia.
  - rewrite Pos.iter_succ, Pos2Z.inj_xO, IH, Pos2Z.inj_succ, Z.pow_succ_r by lia.
    lia.
Qed.

Lemma log2_digits2_pos (p : positive) :
  Z.log2 (Z.pos p) + 1 = Z.pos (digits2_pos p).
Proof.
  pose proof (digits2_pos_bounds p) as Hp.
  rewrite (Z.log2_unique (Z.pos p) (Z.pos (digits2_pos p) - 1)); [lia|lia|].
  by replace (Z.succ (Z.pos (digits2_pos p) - 1)) with (Z.pos (digits2_pos p)) by lia.
Qed.

Lemma binary_round_aux_canonical (s : bool) (m : positive) (e : Z) :
  fexp 53 1024 (Z.pos (digits2_pos m) + e) = e →
  e <= 971 →
  binary_round_aux 53 1024 s (Z.pos m) e loc_Exact = S754_finite s m e.
Proof.
  intros Hcanon He.
  unfold binary_round_aux, shr_fexp. cbn [Zdigits2 shr_record_of_loc].
  rewrite Hcanon, Z.sub_diag. cbn [shr shr_m loc_of_shr_record round_nearest_even].
  cbn [Zdigits2 shr_record_of_loc]. rewrite Hcanon, Z.sub_diag.
  cbn [shr shr_m].
  change (971) with (1024 - 53) in He.
  apply Z.leb_le in He. by rewrite He.
Qed.

(** Integers of at most 53 bits are represented exactly. *)
Lemma binary_round_exact (s : bool) (p : positive) :
  Z.pos (digits2_pos p) <= 53 →
  ∃ m e, binary_round 53 1024 s p 0 = S754_finite s m e ∧
         e <= 0 ∧ Z.pos m = Z.pos p * 2 ^ (- e).
Proof.
  intros Hd. unfold binary_round.
  rewrite Z.add_0_r, fexp_binary64.
  pose proof (digits2_pos_bounds p) as Hp.
  set (d := Z.pos (digits2_pos p)) in *.
  assert (0 < d) by done.
  rewrite Z.max_l by lia.
  unfold shl_align. rewrite Z.sub_0_r.
  destruct (d - 53) as [|k|k] eqn:Hk; [|lia|].
  - exists p, 0. split; [|split; [done|simpl; lia]].
    apply binary_round_aux_canonical; [|lia].
    rewrite fexp_binary64. fold d. lia.
  - exists (Pos.iter xO p k), (Z.neg k).
    assert (Z.pos (Pos.iter xO p k) = Z.pos p * 2 ^ Z.pos k) as Hval
      by apply iter_xO_value.
    split; [|split; [lia|done]].
    apply binary_round_aux_canonical; [|lia].
    rewrite fexp_binary64.
    assert (Zdigits2 (Z.pos (Pos.iter xO p k)) = 53) as Hdig.
    { apply Zdigits2_unique; [|lia]. rewrite Hval.
      replace 53 with (d + Z.pos k) by lia.
      replace (d + Z.pos k - 1) with (d - 1 + Z.pos k) by lia.
      rewrite !Z.pow_add_r by lia.
      assert (0 < 2 ^ Z.pos k) by lia. nia. }
    simpl in Hdig. rewrite Hdig. lia.
Qed.

(** Longer integers are rounded to 53 bits, ties to even. *)
Lemma binary_round_rounded (s : bool) (p : positive) :
  53 < Z.pos (digits2_pos p) <= 1023 →
  ∃ m e, binary_round 53 1024 s p 0 = S754_finite s m e ∧
         0 < e ∧
         Z.pos m * 2 ^ e =
           Float.round_half_even (Z.pos p) (2 ^ (Z.pos (digits2_pos p) - 53))
           * 2 ^ (Z.pos (digits2_pos p) - 53).
Proof.
  intros Hd. unfold binary_round.
  rewrite Z.add_0_r, fexp_binary64.
  pose proof (digits2_pos_bounds p) as Hp.
  set (d := Z.pos (digits2_pos p)) in *.
  rewrite Z.max_l by lia.
  unfold shl_align. rewrite Z.sub_0_r.
  destruct (d - 53) as [|k|k] eqn:Hk; [lia| |lia].
  unfold binary_round_aux.
  assert (shr_fexp 53 1024 (Z.pos p) 0 loc_Exact =
          ((shr {| shr_m := Z.pos p; shr_r := false; shr_s := false |} 0 (Z.pos k)).1,
           Z.pos k)) as ->.
  { unfold shr_fexp. cbn [Zdigits2 shr_record_of_loc]. fold d.
    rewrite Z.add_0_r, fexp_binary64, Z.max_l, Z.sub_0_r, Hk by lia.
    by rewrite shr_pos. }
  rewrite round_nearest_even_shr by lia.
  pose proof (round_half_even_bounds (Z.pos p) (2 ^ Z.pos k) ltac:(lia) ltac:(lia))
    as Hround.
  set (r := Float.round_half_even (Z.pos p) (2 ^ Z.pos k)) in *.
  assert (2 ^ 52 <= Z.pos p / 2 ^ Z.pos k < 2 ^ 53) as Hq.
  { replace d with (53 + Z.pos k) in Hp by lia.
    replace (53 + Z.pos k - 1) with (52 + Z.pos k) in Hp by lia.
    rewrite !Z.pow_add_r in Hp by lia.
    split.
    - apply Z.div_le_lower_bound; lia.
    - apply Z.div_lt_upper_bound; lia. }
  destruct (Z.eq_dec r (2 ^ 53)) as [Hr|Hr].
  - rewrite Hr.
    assert (shr_fexp 53 1024 (2 ^ 53) (Z.pos k) loc_Exact =
            ({| shr_m := 2 ^ 52; shr_r := false; shr_s := false |}, Z.pos k + 1))
      as ->.
    { unfold shr_fexp.
      replace (fexp 53 1024 (Zdigits2 (2 ^ 53) + Z.pos k) - Z.pos k) with 1; [done|].
      rewrite fexp_binary64. change (Zdigits2 (2 ^ 53)) with 54. lia. }
    cbn [shr_m]. change (2 ^ 52) with (Z.pos (2 ^ 52)%positive).
    cbv iota beta.
    replace (Z.pos k + 1 <=? 1024 - 53) with true by (symmetry; apply Z.leb_le; lia).
    eexists _, _. split; [done|]. split; [lia|].
    rewrite Z.pow_add_r by lia. change (Z.pos (2 ^ 52)) with (2 ^ 52). lia.
  - assert (2 ^ 52 <= r < 2 ^ 53) as Hr' by lia.
    assert (shr_fexp 53 1024 r (Z.pos k) loc_Exact =
            ({| shr_m := r; shr_r := false; shr_s := false |}, Z.pos k)) as ->.
    { unfold shr_fexp.
      rewrite (Zdigits2_unique r 53), fexp_binary64 by (simpl; lia).
      replace (Z.max (53 + Z.pos k - 53) (-1074) - Z.pos k) with 0 by lia.
      done. }
    cbn [shr_m]. destruct r as [|m|m]; [simpl in Hr'; lia| |lia].
    replace (Z.pos k <=? 1024 - 53) with true by (symmetry; apply Z.leb_le; lia).
    eexists _, _. split; [done|]. split; [lia|]. done.
Qed.

(** The conversion of a nonzero integer of less than 1024 bits: a finite
    double of the same sign whose value is the integer rounded to 53
    significant bits. *)
Lemma binary_round_int (s : bool) (p : positive) :
  Z.pos p < 2 ^ 1023 →
  ∃ m e, binary_round 53 1024 s p 0 = S754_finite s m e ∧
         Float.integral (S754_finite s m e) = true ∧
         Float.magnitude (S754_finite s m e) = Float.nearest_double_int (Z.pos p).
Proof.
  intros Hp.
  pose proof (digits2_pos_bounds p) as Hd.
  pose proof (log2_digits2_pos p) as Hlog.
  assert (Z.pos (digits2_pos p) <= 1023) as Hd'.
  { destruct (Z.le_gt_cases (Z.pos (digits2_pos p)) 1023) as [|Hgt]; [done|].
    assert (2 ^ 1023 <= 2 ^ (Z.pos (digits2_pos p) - 1))
      by (apply Z.pow_le_mono_r; lia).
    lia. }
  unfold Float.nearest_double_int, Float.prec. rewrite Hlog.
  destruct (Z.le_gt_cases (Z.pos (digits2_pos p)) 53) as [Hsmall|Hbig].
  - destruct (binary_round_exact s p Hsmall) as (m & e & -> & He & Hm).
    exists m, e. split; [done|].
    replace (Z.pos (digits2_pos p) - 53 <=? 0) with true
      by (symmetry; apply Z.leb_le; lia).
    unfold Float.integral, Float.magnitude.
    destruct (Z.leb_spec 0 e) as [He'|He'].
    + split; [done|]. assert (e = 0) as -> by lia. simpl in *. lia.
    + rewrite Hm. rewrite Z.mod_mul, Z.div_mul by lia. done.
  - destruct (binary_round_rounded s p ltac:(lia)) as (m & e & -> & He & Hm).
    exists m, e. split; [done|].
    replace (Z.pos (digits2_pos p) - 53 <=? 0) with false
      by (symmetry; apply Z.leb_gt; lia).
    unfold Float.integral, Float.magnitude.
    replace (0 <=? e) with true by (symmetry; apply Z.leb_le; lia).
    done.
Qed.
End int_to_double.

Section of_int.
Local Open Scope Z_scope.

Lemma nearest_double_int_small (a : Z) :
  0 <= a < 2 ^ 53 → Float.nearest_double_int a = a.
Proof.
  intros Ha. unfold Float.nearest_double_int, Float.prec.
  assert (Z.log2 a < 53) as Hlog.
  { destruct (Z.eq_dec a 0) as [->|]; [done|].
    apply Z.log2_lt_pow2; lia. }
  by replace (Z.log2 a + 1 - 53 <=? 0) with true
    by (symmetry; apply Z.leb_le; lia).
Qed.

(** [float(n)] succeeds below 2^1023 in magnitude; the double has the
    sign of [n] and an integral value: [n] rounded to 53 bits. *)
Lemma of_int_finite (n : Z) :
  Z.abs n < 2 ^ 1023 →
  ∃ x, Float.of_int n = Ok x ∧
       Float.is_finite x = true ∧
       Float.sign_bit x = (n <? 0) ∧
       Float.integral x = true ∧
       Float.magnitude x = Float.nearest_double_int (Z.abs n).
Proof.
  intros Hn. unfold Float.of_int, Float.prec, Float.emax, binary_normalize.
  destruct n as [|p|p].
  - by exists (S754_zero false).
  - destruct (binary_round_int false p Hn) as (m & e & -> & Hint & Hmag).
    by exists (S754_finite false m e).
  - destruct (binary_round_int true p Hn) as (m & e & -> & Hint & Hmag).
    by exists (S754_finite true m e).
Qed.
End of_int.

(** ** The rendering [.9f] *)

Section rendering.
Local Open Scope Z_scope.

Lemma is_digit_digit_char (d : Z) :
  0 <= d < 10 → Fmt.is_digit (Fmt.digit_char d) = true.
Proof.
  intros Hd.
  assert (d = 0 ∨ d = 1 ∨ d = 2 ∨ d = 3 ∨ d = 4 ∨ d = 5 ∨ d = 6 ∨ d = 7 ∨
          d = 8 ∨ d = 9) as Hcases by lia.
  repeat (destruct Hcases as [->|Hcases]; [reflexivity|]).
  by subst.
Qed.

Lemma fixed_digits_length (k : nat) (r : Z) : length (Fmt.fixed_digits k r) = k.
Proof.
  revert r. induction k as [|k IH]; intros r; simpl; [done|].
  rewrite length_app, IH. simpl. lia.
Qed.

Lemma fixed_digits_all_digits (k : nat) (r : Z) :
  forallb Fmt.is_digit (Fmt.fixed_digits k r) = true.
Proof.
  revert r. induction k as [|k IH]; intros r; cbn [Fmt.fixed_digits]; [done|].
  rewrite forallb_app, IH. cbn [forallb andb].
  rewrite is_digit_digit_char; [done|]. apply Z.mod_pos_bound. lia.
Qed.

Lemma string_of_uint_all_digits (u : Decimal.uint) :
  forallb Fmt.is_digit (list_ascii_of_string (NilEmpty.string_of_uint u)) = true.
Proof. induction u; simpl; done. Qed.

Lemma decimal_all_digits (n : Z) : forallb Fmt.is_digit (Fmt.decimal n) = true.
Proof. apply string_of_uint_all_digits. Qed.

Lemma decimal_nonempty (n : Z) : Fmt.decimal n ≠ [].
Proof.
  unfold Fmt.decimal.
  destruct (Z.to_N n) as [|p]; [done|].
  pose proof (Unsigned.to_uint_nonnil p) as Hnil.
  simpl. destruct (Pos.to_uint p); done.
Qed.

Lemma split_at_dot_digits (a b : list ascii) :
  forallb Fmt.is_digit a = true →
  Fmt.split_at_dot (a ++ "."%char :: b) = Some (a, b).
Proof.
  induction a as [|c a IH]; intros Ha; simpl in *.
  - done.
  - apply andb_true_iff in Ha as [Hc Ha].
    destruct (Ascii.eqb_spec c ".") as [->|_]; [done|].
    by rewrite IH.
Qed.

Lemma token_shape_intro (a b : list ascii) :
  a ≠ [] →
  forallb Fmt.is_digit a = true →
  length b = 9%nat →
  forallb Fmt.is_digit b = true →
  Fmt.token_shape (string_of_list_ascii (a ++ "."%char :: b)) = true.
Proof.
  intros Hne Ha Hlen Hb. unfold Fmt.token_shape.
  rewrite list_ascii_of_string_of_list_ascii, split_at_dot_digits by done.
  rewrite Ha, Hb, Hlen. destruct a; done.
Qed.

(** A finite float with a clear sign bit renders as digits, a point and
    nine digits. *)
Lemma float_9f_shape (x : spec_float) :
  Float.is_finite x = true →
  Float.sign_bit x = false →
  Fmt.token_shape (Fmt.float_9f x) = true.
Proof.
  destruct x as [s|s| |s m e]; try done; simpl; intros _ ->.
  - done.
  - apply token_shape_intro.
    + apply decimal_nonempty.
    + apply decimal_all_digits.
    + apply (fixed_digits_length 9).
    + apply (fixed_digits_all_digits 9).
Qed.

(** A set sign bit puts a minus sign in front, which breaks the shape. *)
Lemma float_9f_negative (x : spec_float) :
  Float.sign_bit x = true →
  Fmt.token_shape (Fmt.float_9f x) = false.
Proof.
  destruct x as [s|s| |s m e]; try done; simpl; intros ->; try done.
  unfold Fmt.token_shape.
  rewrite list_ascii_of_string_of_list_ascii.
  cbn [Fmt.sign app Fmt.split_at_dot Ascii.eqb Bool.eqb].
  change (Ascii.eqb "-" ".") with false. cbv iota.
  by destruct (Fmt.split_at_dot _) as [[a b]|].
Qed.

Lemma scaled9_integral (s : bool) (m : positive) (e : Z) :
  Float.integral (S754_finite s m e) = true →
  Float.scaled9 m e = Float.magnitude (S754_finite s m e) * 10 ^ 9.
Proof.
  unfold Float.integral, Float.scaled9, Float.magnitude.
  destruct (Z.leb_spec 0 e) as [He|He]; [done|].
  intros Hmod%Z.eqb_eq.
  assert (0 < 2 ^ (- e)) by (apply Z.pow_pos_nonneg; lia).
  assert (Z.pos m = 2 ^ (- e) * (Z.pos m / 2 ^ (- e))) as Hm
    by (apply Z.div_exact; lia).
  rewrite round_half_even_exact.
  - rewrite Hm at 1. rewrite <- Z.mul_assoc, Z.mul_comm, Z.div_mul by lia. lia.
  - done.
  - rewrite Hm, <- Z.mul_assoc, Z.mul_comm. apply Z.mod_mul. lia.
Qed.

(** An integral double renders with nine zeros after the point. *)
Lemma float_9f_integral (x : spec_float) :
  Float.is_finite x = true →
  Float.integral x = true →
  Fmt.float_9f x =
    string_of_list_ascii
      (Fmt.sign (Float.sign_bit x) ++ Fmt.decimal (Float.magnitude x) ++
       list_ascii_of_string ".000000000").
Proof.
  destruct x as [s|s| |s m e]; try done; intros _ Hint.
  cbn [Fmt.float_9f Float.sign_bit].
  rewrite (scaled9_integral s) by done.
  by rewrite Z.div_mul, Z.mod_mul by lia.
Qed.
End rendering.

(** The rendering on known values: 0.1, the smallest negative subnormal,
    two ties in the tenth place (2^-10 and 3 * 2^-10), integers beyond
    2^53, and the first integer that no longer converts. *)
Example float_9f_tenth :
  Fmt.float_9f (S754_finite false 3602879701896397 (-55)) = "0.100000000"%string.
Proof. vm_compute. reflexivity. Qed.

Example float_9f_negative_tiny :
  Fmt.float_9f (S754_finite true 1 (-1074)) = "-0.000000000"%string.
Proof. vm_compute. reflexivity. Qed.

Example float_9f_tie_to_even :
  Fmt.float_9f (S754_finite false 1 (-10)) = "0.000976562"%string ∧
  Fmt.float_9f (S754_finite false 3 (-10)) = "0.002929688"%string ∧
  Float.round_half_even 5 10 = 0%Z ∧
  Float.round_half_even 15 10 = 2%Z ∧
  Float.round_half_even 25 10 = 2%Z.
Proof. repeat split; vm_compute; reflexivity. Qed.

Example format_9f_int_rounded :
  Fmt.format_9f (Fmt.PyInt 1500000000123456789)
    = Ok "1500000000123456768.000000000"%string ∧
  Fmt.format_9f (Fmt.PyInt (2 ^ 53 + 1)) = Ok "9007199254740992.000000000"%string ∧
  Fmt.format_9f (Fmt.PyInt (2 ^ 53 + 3)) = Ok "9007199254740996.000000000"%string ∧
  Fmt.format_9f (Fmt.PyInt (-1)) = Ok "-1.000000000"%string.
Proof. repeat split; vm_compute; reflexivity. Qed.

Example format_9f_int_overflow :
  Fmt.format_9f (Fmt.PyInt (2 ^ 1024 - 2 ^ 970)) = Raise OverflowError ∧
  Fmt.format_9f (Fmt.PyFloat S754_nan) = Ok "nan"%string ∧
  Fmt.format_9f (Fmt.PyFloat (S754_infinity true)) = Ok "-inf"%string.
Proof. repeat split; vm_compute; reflexivity. Qed.
(** ** [get_etag_from_file] *)

Section etag_from_file.
Implicit Types (w : world) (path : string) (stat : stat_result).

Lemma lookup_stat_log ev w path :
  os.lookup_stat (log ev w) path = os.lookup_stat w path.
Proof. done. Qed.

Lemma get_etag_from_file_eq path w :
  get_etag_from_file path w =
    (match os.lookup_stat w path with
     | Ok stat => etag_of_stat stat
     | Raise e => Raise e
     end, log (EvStat path) w).
Proof.
  unfold get_etag_from_file, mbind, io_bind, bind, os.stat, lift.
  by destruct (os.lookup_stat w path).
Qed.

Lemma etag_of_stat_ns stat ns :
  st_mtime_ns stat = Some ns →
  etag_of_stat stat = Fmt.format_9f (Fmt.PyInt ns).
Proof. unfold etag_of_stat, chosen_mtime. by intros ->. Qed.

Lemma etag_of_stat_seconds stat :
  st_mtime_ns stat = None →
  etag_of_stat stat = Ok (Fmt.float_9f (st_mtime stat)).
Proof. unfold etag_of_stat, chosen_mtime. by intros ->. Qed.

Lemma format_9f_int (ns : Z) :
  (Z.abs ns < 2 ^ 1023)%Z →
  Fmt.format_9f (Fmt.PyInt ns) =
    Ok (string_of_list_ascii
          (Fmt.sign (ns <? 0)%Z ++
           Fmt.decimal (Float.nearest_double_int (Z.abs ns)) ++
           list_ascii_of_string ".000000000")).
Proof.
  intros Hns.
  destruct (of_int_finite ns Hns) as (x & Hx & Hfin & Hsign & Hint & Hmag).
  unfold Fmt.format_9f. rewrite Hx, float_9f_integral by done.
  by rewrite Hsign, Hmag.
Qed.

Lemma etag_of_stat_shape stat :
  nonneg_timestamp stat →
  ∃ tok, etag_of_stat stat = Ok tok ∧ Fmt.token_shape tok = true.
Proof.
  unfold nonneg_timestamp. destruct (st_mtime_ns stat) as [ns|] eqn:Hns.
  - intros Hrange. rewrite (etag_of_stat_ns stat ns) by done.
    destruct (of_int_finite ns ltac:(lia)) as (x & Hx & Hfin & Hsign & _).
    exists (Fmt.float_9f x). unfold Fmt.format_9f. rewrite Hx. split; [done|].
    apply float_9f_shape; [done|].
    rewrite Hsign. apply Z.ltb_ge. lia.
  - intros [Hfin Hsign]. rewrite etag_of_stat_seconds by done.
    eexists. split; [done|]. by apply float_9f_shape.
Qed.
End etag_from_file.

(** C1 (as stated, refuted): an instant expressible in both
    representations, 1500000000.5 seconds after the epoch, gives the token
    [1500000000500000000.000000000] through the nanosecond branch and
    [1500000000.500000000] through the fallback branch. *)
Lemma etag_branches_differ :
  same_instant sample.half_past_ns sample.half_past = true ∧
  os.lookup_stat sample.linux "item.ics"
    = Ok {| st_mode := 33188; st_ino := 7; st_size := 3;
            st_mtime := sample.half_past;
            st_mtime_ns := Some sample.half_past_ns |} ∧
  os.lookup_stat sample.legacy "item.ics"
    = Ok {| st_mode := 33188; st_ino := 7; st_size := 3;
            st_mtime := sample.half_past;
            st_mtime_ns := None |} ∧
  (get_etag_from_file "item.ics" sample.linux).1
    = Ok "1500000000500000000.000000000"%string ∧
  (get_etag_from_file "item.ics" sample.legacy).1
    = Ok "1500000000.500000000"%string ∧
  (get_etag_from_file "item.ics" sample.linux).1
    ≠ (get_etag_from_file "item.ics" sample.legacy).1.
Proof.
  repeat split; try (vm_compute; reflexivity).
  vm_compute. discriminate.
Qed.

(** At the epoch itself the two branches do agree. *)
Example etag_branches_agree_at_epoch :
  same_instant 0 (S754_zero false) = true ∧
  Fmt.format_9f (Fmt.PyInt 0) = Fmt.format_9f (Fmt.PyFloat (S754_zero false)).
Proof. split; vm_compute; reflexivity. Qed.

(** C1 (amended): both branches render the chosen value with nine
    fractional digits, but the nanosecond count is not converted to
    seconds. With [st_mtime_ns] present the token is the count itself,
    rounded to the nearest double (53 significant bits, ties to even),
    followed by [.000000000]; with [st_mtime_ns] absent the token is the
    rendering of the fractional-seconds float. *)
Theorem etag_ns_branch_unscaled (w : world) (path : string)
    (stat : stat_result) (ns : Z) :
  os.lookup_stat w path = Ok stat →
  st_mtime_ns stat = Some ns →
  (Z.abs ns < 2 ^ 1023)%Z →
  (get_etag_from_file path w).1 =
    Ok (string_of_list_ascii
          (Fmt.sign (ns <? 0)%Z ++
           Fmt.decimal (Float.nearest_double_int (Z.abs ns)) ++
           list_ascii_of_string ".000000000")) ∧
  (∀ w' path' stat',
     os.lookup_stat w' path' = Ok stat' →
     st_mtime_ns stat' = None →
     (get_etag_from_file path' w').1 = Ok (Fmt.float_9f (st_mtime stat'))).
Proof.
  intros Hstat Hns Hrange. split.
  - rewrite get_etag_from_file_eq, Hstat. cbn [fst].
    rewrite (etag_of_stat_ns stat ns) by done.
    by apply format_9f_int.
  - intros w' path' stat' Hstat' Hnone.
    rewrite get_etag_from_file_eq, Hstat'. cbn [fst].
    by apply etag_of_stat_seconds.
Qed.

Lemma etag_ns_branch_unscaled_witness :
  (get_etag_from_file "item.ics" sample.linux).1 =
    Ok (string_of_list_ascii
          (Fmt.sign (sample.half_past_ns <? 0)%Z ++
           Fmt.decimal (Float.nearest_double_int (Z.abs sample.half_past_ns)) ++
           list_ascii_of_string ".000000000")).
Proof.
  refine (proj1 (etag_ns_branch_unscaled sample.linux "item.ics"
                   {| st_mode := 33188; st_ino := 7; st_size := 3;
                      st_mtime := sample.half_past;
                      st_mtime_ns := Some sample.half_past_ns |}
                   sample.half_past_ns _ _ _)).
  - vm_compute. reflexivity.
  - reflexivity.
  - vm_compute. reflexivity.
Defined.

(** C3 (as stated, refuted): a file last modified one second before the
    epoch has the token [-1000000000.000000000], which does not have the
    shape digits, point, nine digits. *)
Lemma etag_before_epoch_shape :
  os.lookup_stat sample.old_file "item.ics"
    = Ok {| st_mode := 33188; st_ino := 7; st_size := 3;
            st_mtime := sample.before_epoch;
            st_mtime_ns := Some sample.before_epoch_ns |} ∧
  (get_etag_from_file "item.ics" sample.old_file).1
    = Ok "-1000000000.000000000"%string ∧
  Fmt.token_shape "-1000000000.000000000" = false.
Proof. repeat split; vm_compute; reflexivity. Qed.

(** C3 (amended): for every timestamp at or after the epoch (a
    nanosecond count from 0 to below 2^1023, or a finite float with a
    clear sign bit) [get_etag_from_file] returns a token of the shape
    digits, point, exactly nine digits. *)
Theorem etag_shape_after_epoch (w : world) (path : string) (stat : stat_result) :
  os.lookup_stat w path = Ok stat →
  nonneg_timestamp stat →
  ∃ tok, (get_etag_from_file path w).1 = Ok tok ∧ Fmt.token_shape tok = true.
Proof.
  intros Hstat Hnonneg.
  rewrite get_etag_from_file_eq, Hstat. cbn [fst].
  by apply etag_of_stat_shape.
Qed.

Lemma etag_shape_after_epoch_witness :
  ∃ tok, (get_etag_from_file "item.ics" sample.legacy).1 = Ok tok ∧
         Fmt.token_shape tok = true.
Proof.
  refine (etag_shape_after_epoch sample.legacy "item.ics"
            {| st_mode := 33188; st_ino := 7; st_size := 3;
               st_mtime := sample.half_past;
               st_mtime_ns := None |} _ _).
  - vm_compute. reflexivity.
  - split; reflexivity.
Defined.

(** C4: one representation per computation. When the stat result has
    [st_mtime_ns], the token is the rendering of that integer and of
    nothing else; the float [st_mtime] is rendered only when
    [st_mtime_ns] is absent. *)
Theorem etag_single_representation (w : world) (path : string)
    (stat : stat_result) :
  os.lookup_stat w path = Ok stat →
  (∀ ns, st_mtime_ns stat = Some ns →
         (get_etag_from_file path w).1 = Fmt.format_9f (Fmt.PyInt ns)) ∧
  (st_mtime_ns stat = None →
   (get_etag_from_file path w).1 = Fmt.format_9f (Fmt.PyFloat (st_mtime stat))).
Proof.
  intros Hstat. rewrite get_etag_from_file_eq, Hstat. cbn [fst].
  split.
  - intros ns Hns. by apply etag_of_stat_ns.
  - intros Hnone. by apply etag_of_stat_seconds.
Qed.

Lemma etag_single_representation_witness :
  (∀ ns, Some sample.half_past_ns = Some ns →
         (get_etag_from_file "item.ics" sample.linux).1
           = Fmt.format_9f (Fmt.PyInt ns)) ∧
  (Some sample.half_past_ns = None →
   (get_etag_from_file "item.ics" sample.linux).1
     = Fmt.format_9f (Fmt.PyFloat sample.half_past)).
Proof.
  refine (etag_single_representation sample.linux "item.ics"
            {| st_mode := 33188; st_ino := 7; st_size := 3;
               st_mtime := sample.half_past;
               st_mtime_ns := Some sample.half_past_ns |} _).
  vm_compute. reflexivity.
Defined.

(** C5: when the metadata of the path cannot be read, [os.stat] raises
    and [get_etag_from_file] raises the very same exception, in the same
    world; no token is returned. A path that does not exist is such a
    path. *)
Theorem etag_stat_error_propagates (w w1 : world) (path : string) (e : exn) :
  os.stat path w = (Raise e, w1) →
  get_etag_from_file path w = (Raise e, w1) ∧
  (w_paths w !! path = None → e = OSError ENOENT (Some path)).
Proof.
  unfold os.stat. intros [= Hstat <-].
  rewrite get_etag_from_file_eq, Hstat. split; [done|].
  intros Hnone. unfold os.lookup_stat in Hstat. rewrite Hnone in Hstat.
  congruence.
Qed.

Lemma etag_stat_error_propagates_witness :
  get_etag_from_file "nope" sample.linux
    = (Raise (OSError ENOENT (Some "nope"%string)),
       log (EvStat "nope") sample.linux) ∧
  (w_paths sample.linux !! "nope"%string = None →
   OSError ENOENT (Some "nope"%string) = OSError ENOENT (Some "nope"%string)).
Proof.
  refine (etag_stat_error_propagates sample.linux _ "nope" _ _).
  vm_compute. reflexivity.
Defined.

(** C6: the token is a function of the modification-time metadata. Two
    calls that see the same [st_mtime] and [st_mtime_ns] return the same
    result, whatever else differs between the two worlds and the two
    stat results. *)
Theorem etag_deterministic (w1 w2 : world) (path1 path2 : string)
    (stat1 stat2 : stat_result) :
  os.lookup_stat w1 path1 = Ok stat1 →
  os.lookup_stat w2 path2 = Ok stat2 →
  st_mtime stat1 = st_mtime stat2 →
  st_mtime_ns stat1 = st_mtime_ns stat2 →
  (get_etag_from_file path1 w1).1 = (get_etag_from_file path2 w2).1.
Proof.
  intros H1 H2 Hs Hns.
  rewrite !get_etag_from_file_eq, H1, H2. cbn [fst].
  unfold etag_of_stat, chosen_mtime. by rewrite Hs, Hns.
Qed.

Lemma etag_deterministic_witness :
  (get_etag_from_file "item.ics" sample.linux).1
    = (get_etag_from_file "item.ics" sample.linux_later).1.
Proof.
  refine (etag_deterministic sample.linux sample.linux_later
            "item.ics" "item.ics"
            {| st_mode := 33188; st_ino := 7; st_size := 3;
               st_mtime := sample.half_past;
               st_mtime_ns := Some sample.half_past_ns |}
            {| st_mode := 33188; st_ino := 7; st_size := 3;
               st_mtime := sample.half_past;
               st_mtime_ns := Some sample.half_past_ns |} _ _ _ _).
  - vm_compute. reflexivity.
  - vm_compute. reflexivity.
  - reflexivity.
  - reflexivity.
Defined.

(** Called twice in a row, [get_etag_from_file] gives the same result
    twice, token or exception. *)
Lemma etag_repeatable (path : string) (w : world) :
  (get_etag_from_file path (get_etag_from_file path w).2).1
    = (get_etag_from_file path w).1.
Proof. by rewrite !get_etag_from_file_eq. Qed.

(** C8: [get_etag_from_file] changes nothing: paths, inodes, open
    descriptors, file objects, clock and platform are as before, whether
    it returns or raises; the one thing it does is a single metadata
    query of the path. *)
Theorem etag_from_file_frame (path : string) (w : world) :
  let w' := (get_etag_from_file path w).2 in
  filesystem w' = filesystem w ∧
  w_fds w' = w_fds w ∧
  w_objects w' = w_objects w ∧
  w_now w' = w_now w ∧
  sys_platform w' = sys_platform w ∧
  w_trace w' = w_trace w ++ [EvStat path].
Proof. rewrite get_etag_from_file_eq. done. Qed.

(** ** [get_etag_from_fileobject] *)

Section etag_from_fileobject.
Implicit Types (w : world) (f : nat) (o : fileobject).

(** What a successful [flush] leaves behind. *)
Lemma flush_ok f w w1 :
  file.flush f w = (Ok tt, w1) →
  ∃ o o1, w_objects w !! f = Some o ∧
          w_objects w1 !! f = Some o1 ∧
          fo_name o1 = fo_name o ∧ fo_fd o1 = fo_fd o ∧
          fo_closed o1 = false ∧
          sys_platform w1 = sys_platform w ∧
          w_trace w1 = w_trace w ++ [EvFlush f].
Proof.
  unfold file.flush. cbv zeta. cbn [log w_objects w_fds w_inodes w_now].
  destruct (w_objects w !! f) as [o|] eqn:Ho; [|done].
  destruct (fo_closed o) eqn:Hclosed; [done|].
  destruct (fo_buffer o) as [|b bs] eqn:Hbuf.
  - intros [= <-]. exists o, o. cbn [log w_objects]. by rewrite ?Ho.
  - destruct (w_fds w !! fo_fd o) as [ino|]; [|done].
    destruct (w_inodes w !! ino) as [nd|]; [|done].
    intros [= <-]. eexists o, _. cbn [w_objects set_objects].
    rewrite lookup_insert_eq. done.
Qed.

Lemma fsync_ok fd w w2 :
  os.fsync fd w = (Ok tt, w2) →
  w_objects w2 = w_objects w ∧
  w_paths w2 = w_paths w ∧
  sys_platform w2 = sys_platform w ∧
  w_trace w2 = w_trace w ++ [EvFsync fd] ∧
  ∀ path stat, os.lookup_stat w path = Ok stat →
               os.lookup_stat w2 path = Ok stat.
Proof.
  unfold os.fsync. cbv zeta. cbn [log w_fds w_inodes].
  destruct (w_fds w !! fd) as [ino|]; [|done].
  destruct (w_inodes w !! ino) as [nd|] eqn:Hnd; [|done].
  intros [= <-]. repeat split; try done.
  intros path stat. unfold os.lookup_stat. cbn [w_paths w_inodes set_inodes log].
  destruct (w_paths w !! path) as [[ino'|]|]; try done.
  destruct (decide (ino' = ino)) as [->|Hne].
  - rewrite lookup_insert_eq, Hnd. done.
  - by rewrite lookup_insert_ne.
Qed.

(** The three stages of a successful run. *)
Lemma get_etag_from_fileobject_ok f w tok w' :
  get_etag_from_fileobject f w = (Ok tok, w') →
  ∃ o w1 w2,
    w_objects w !! f = Some o ∧
    file.flush f w = (Ok tt, w1) ∧
    (if String.eqb (sys_platform w) "win32"
     then os.fsync (fo_fd o) w1 = (Ok tt, w2)
     else w2 = w1) ∧
    get_etag_from_file (fo_name o) w2 = (Ok tok, w').
Proof.
  unfold get_etag_from_fileobject, mbind, io_bind, bind, platform.
  destruct (file.flush f w) as [[[]|e] w1] eqn:Hflush; [|done].
  destruct (flush_ok _ _ _ Hflush)
    as (o & o1 & Ho & Ho1 & Hname & Hfd & Hopen & Hplat & Htrace).
  cbv beta iota. rewrite Hplat.
  destruct (String.eqb (sys_platform w) "win32") eqn:Hwin.
  - unfold file.fileno at 1. rewrite Ho1, Hopen.
    destruct (os.fsync (fo_fd o1) w1) as [[[]|e] w2] eqn:Hsync; [|done].
    destruct (fsync_ok _ _ _ Hsync) as (Hobjs & _).
    unfold file.name. rewrite Hobjs, Ho1, Hname.
    intros Hget. exists o, w1, w2. by rewrite <- Hfd.
  - unfold mret, io_ret, ret, file.name. rewrite Ho1, Hname.
    intros Hget. by exists o, w1, w1.
Qed.
(** When the flush raises, nothing else is attempted. *)
Lemma fileobject_flush_error f w w1 (e : exn) :
  file.flush f w = (Raise e, w1) →
  get_etag_from_fileobject f w = (Raise e, w1).
Proof.
  intros Hflush.
  unfold get_etag_from_fileobject, mbind, io_bind, bind.
  by rewrite Hflush.
Qed.
End etag_from_fileobject.



Example fileobject_trace_linux :
  w_trace (get_etag_from_fileobject 1 sample.linux).2
    = [EvFlush 1; EvStat "item.tmp"].
Proof. vm_compute. reflexivity. Qed.

Example fileobject_trace_win32 :
  w_trace (get_etag_from_fileobject 1 sample.win32).2
    = [EvFlush 1; EvFsync 3; EvStat "item.tmp"].
Proof. vm_compute. reflexivity. Qed.

(** [os.rename] keeps the modification time: the new path shows the
    metadata the old path had. *)
Lemma rename_preserves_mtime (src dst : string) (w w' : world) :
  os.rename src dst w = (Ok tt, w') →
  os.mtime_metadata w' dst = os.mtime_metadata w src.
Proof.
  unfold os.rename, os.mtime_metadata, os.lookup_stat.
  destruct (w_paths w !! src) as [[ino|]|] eqn:Hsrc; try done.
  intros [= <-]. cbn [w_paths w_inodes set_paths].
  rewrite lookup_insert_eq. by destruct (w_inodes w !! ino).
Qed.

(** What a successful flush leaves in the file object: nothing
    buffered. *)
Lemma flush_ok_buffer (f : nat) (w w1 : world) :
  file.flush f w = (Ok tt, w1) →
  ∃ o1, w_objects w1 !! f = Some o1 ∧ fo_buffer o1 = [] ∧ fo_closed o1 = false.
Proof.
  unfold file.flush. cbv zeta. cbn [log w_objects w_fds w_inodes w_now].
  destruct (w_objects w !! f) as [o|] eqn:Ho; [|done].
  destruct (fo_closed o) eqn:Hclosed; [done|].
  destruct (fo_buffer o) as [|b bs] eqn:Hbuf.
  - intros [= <-]. exists o. cbn [log w_objects]. by rewrite Ho.
  - destruct (w_fds w !! fo_fd o) as [ino|]; [|done].
    destruct (w_inodes w !! ino) as [nd|]; [|done].
    intros [= <-]. eexists. cbn [w_objects set_objects].
    rewrite lookup_insert_eq. done.
Qed.

(** With nothing buffered, closing writes nothing: the metadata of every
    path stay as they are, whatever the clock shows. *)
Lemma close_flushed_keeps_metadata (f : nat) (o1 : fileobject)
    (now : timestamp) (w w2 : world) :
  w_objects w !! f = Some o1 →
  fo_buffer o1 = [] →
  file_close f (set_now now w) = (Ok tt, w2) →
  ∀ path, os.lookup_stat w2 path = os.lookup_stat w path.
Proof.
  intros Ho1 Hbuf. unfold file_close. cbn [set_now w_objects].
  rewrite Ho1. destruct (fo_closed o1) eqn:Hclosed.
  - by intros [= <-].
  - unfold file.flush. cbv zeta. cbn [log set_now w_objects].
    rewrite Ho1, Hclosed, Hbuf. cbn [log set_now w_objects]. rewrite Ho1.
    by intros [= <-].
Qed.

(** After a successful capture nothing is buffered any more, and the
    token is the rendering of what the path shows then. *)
Lemma capture_flushed (f : nat) (o : fileobject) (w w1 : world) (tok : string) :
  get_etag_from_fileobject f w = (Ok tok, w1) →
  w_objects w !! f = Some o →
  ∃ o1 stat,
    w_objects w1 !! f = Some o1 ∧ fo_buffer o1 = [] ∧
    os.lookup_stat w1 (fo_name o) = Ok stat ∧ etag_of_stat stat = Ok tok.
Proof.
  intros Hrun Ho.
  destruct (get_etag_from_fileobject_ok _ _ _ _ Hrun)
    as (o' & wa & wb & Ho' & Hflush & Hsync & Hget).
  assert (o' = o) as -> by congruence.
  destruct (flush_ok_buffer _ _ _ Hflush) as (o1 & Ho1 & Hbuf & _).
  assert (w_objects wb = w_objects wa) as Hobjs.
  { destruct (String.eqb (sys_platform w) "win32"); [|by subst].
    by destruct (fsync_ok _ _ _ Hsync) as (-> & _). }
  rewrite get_etag_from_file_eq in Hget. injection Hget as Htok <-.
  destruct (os.lookup_stat wb (fo_name o)) as [stat|e] eqn:Hstat; [|done].
  exists o1, stat. cbn [log w_objects]. rewrite Hobjs, lookup_stat_log.
  done.
Qed.

(** After a successful [fsync] the inode behind the descriptor is on
    stable storage. *)
Lemma fsync_durable (fd : Z) (w w2 : world) :
  os.fsync fd w = (Ok tt, w2) →
  ∃ ino nd, w_fds w2 !! fd = Some ino ∧ w_inodes w2 !! ino = Some nd ∧
            i_durable nd = true.
Proof.
  unfold os.fsync. cbv zeta. cbn [log w_fds w_inodes].
  destruct (w_fds w !! fd) as [ino|] eqn:Hfd; [|done].
  destruct (w_inodes w !! ino) as [nd|]; [|done].
  intros [= <-]. eexists ino, _. cbn [w_fds w_inodes set_inodes log].
  rewrite Hfd, lookup_insert_eq. done.
Qed.

(** C7: the token captured by [get_etag_from_fileobject] on the freshly
    written temporary file is the token [get_etag_from_file] returns for
    the new path after the caller has closed the file (at whatever time)
    and moved it, provided the move kept the modification time: the new
    path shows the modification-time metadata the temporary file had
    after the close. The capture has flushed every pending byte, so the
    close does not stamp the file again; on [win32] the token was taken
    with the file on stable storage. *)
Theorem etag_move_invariant (f : nat) (o : fileobject) (now : timestamp)
    (w w1 w2 w3 : world) (tok dst : string) :
  get_etag_from_fileobject f w = (Ok tok, w1) →
  w_objects w !! f = Some o →
  file_close f (set_now now w1) = (Ok tt, w2) →
  os.mtime_metadata w3 dst = os.mtime_metadata w2 (fo_name o) →
  (get_etag_from_file dst w3).1 = Ok tok ∧
  (sys_platform w = "win32"%string →
   ∃ ino nd, w_fds w1 !! fo_fd o = Some ino ∧ w_inodes w1 !! ino = Some nd ∧
             i_durable nd = true).
Proof.
  intros Hrun Ho Hclose Hmove. split.
  - destruct (capture_flushed f o w w1 tok Hrun Ho)
      as (o1 & stat & Ho1 & Hbuf & Hstat & Htok).
    pose proof (close_flushed_keeps_metadata f o1 now w1 w2 Ho1 Hbuf Hclose
                  (fo_name o)) as Hkept.
    rewrite get_etag_from_file_eq. cbn [fst].
    unfold os.mtime_metadata in Hmove. rewrite Hkept, Hstat in Hmove.
    destruct (os.lookup_stat w3 dst) as [stat'|e']; [|done].
    injection Hmove as Hs Hns.
    rewrite <- Htok. unfold etag_of_stat, chosen_mtime. by rewrite Hs, Hns.
  - intros Hwin.
    destruct (get_etag_from_fileobject_ok _ _ _ _ Hrun)
      as (o' & wa & wb & Ho' & _ & Hsync & Hget).
    assert (o' = o) as -> by congruence.
    rewrite Hwin in Hsync. cbn in Hsync.
    rewrite get_etag_from_file_eq in Hget. injection Hget as _ <-.
    by apply fsync_durable in Hsync.
Qed.

Lemma etag_move_invariant_witness :
  (get_etag_from_file "item.ics"
     (os.rename "item.tmp" "item.ics"
        (file_close 1
           (set_now sample.stamp_before_epoch
              (get_etag_from_fileobject 1 sample3.win32_old_file).2)).2).2).1
    = Ok "1500000000500000000.000000000"%string ∧
  (sys_platform sample3.win32_old_file = "win32"%string →
   ∃ ino nd,
     w_fds (get_etag_from_fileobject 1 sample3.win32_old_file).2 !! 3%Z
       = Some ino ∧
     w_inodes (get_etag_from_fileobject 1 sample3.win32_old_file).2 !! ino
       = Some nd ∧
     i_durable nd = true).
Proof.
  refine (etag_move_invariant 1
            {| fo_name := "item.tmp"; fo_fd := 3;
               fo_buffer := sample.abc; fo_closed := false |}
            sample.stamp_before_epoch
            sample3.win32_old_file
            (get_etag_from_fileobject 1 sample3.win32_old_file).2
            (file_close 1
               (set_now sample.stamp_before_epoch
                  (get_etag_from_fileobject 1 sample3.win32_old_file).2)).2
            _ _ _ _ _ _ _).
  - vm_compute. reflexivity.
  - vm_compute. reflexivity.
  - vm_compute. reflexivity.
  - vm_compute. reflexivity.
Defined.

(** The flush is what makes this true. In the same world (the temporary
    file still stamped one second before the epoch, three bytes pending)
    the token of the path taken without a flush is the stale one, and it
    is not the token of the file once it is closed and moved. *)
Example etag_without_flush_is_stale :
  (get_etag_from_file "item.tmp" sample.old_file).1
    = Ok "-1000000000.000000000"%string ∧
  (get_etag_from_file "item.ics"
     (os.rename "item.tmp" "item.ics"
        (file_close 1 sample.old_file).2).2).1
    = Ok "1500000000500000000.000000000"%string.
Proof. split; vm_compute; reflexivity. Qed.

(** ** [cached_property] *)

Section cached_properties.
Import cached.
Implicit Types (self : cached_property) (o : nat) (st : pstate) (v : value).

(** A stored value other than the sentinel is returned as it is; the
    state, and with it the log of invocations, does not change. *)
Lemma get_stored self o st d v :
  st_heap st !! o = Some d →
  d !! __name__ self = Some v →
  is_missing v = false →
  __get__ self (Some o) st = (Ok (inr v), st).
Proof.
  intros Hd Hv Hmiss. unfold __get__. rewrite Hd, Hv. simpl.
  by rewrite Hmiss.
Qed.


Lemma invocations_snoc name o st c h :
  invocations name o {| st_heap := h; st_calls := st_calls st ++ [c] |}
    ≤ invocations name o st + 1.
Proof.
  unfold invocations. cbn [st_calls].
  rewrite filter_app, length_app, filter_cons, filter_nil.
  destruct (decide (c = (name, o))); simpl; lia.
Qed.

(** After an access that returned [v], the instance dictionary holds
    [v] under the property's name, and the wrapped function ran at most
    once during the access. *)
Lemma get_first self o st st1 v :
  __get__ self (Some o) st = (Ok (inr v), st1) →
  is_missing v = false →
  (∃ d1, st_heap st1 !! o = Some d1 ∧ d1 !! __name__ self = Some v) ∧
  invocations (__name__ self) o st1 ≤ invocations (__name__ self) o st + 1.
Proof.
  unfold __get__.
  destruct (st_heap st !! o) as [d|] eqn:Hd; [|done].
  destruct (is_missing (default _missing (d !! __name__ self))) eqn:Hmiss.
  - destruct (fn_call (func self) o (st_heap st)) as [[v'|e] h]; [|done].
    destruct (h !! o) as [d'|] eqn:Hd'; [|done].
    intros [= <- <-] Hv. split.
    + exists (<[__name__ self := v']> d'). cbn [st_heap].
      by rewrite !lookup_insert_eq.
    + apply invocations_snoc.
  - intros [= <- <-] _. split; [|lia].
    exists d. split; [done|].
    destruct (d !! __name__ self) as [v'|]; [done|].
    simpl in Hmiss. done.
Qed.
End cached_properties.




(** The provisos matter: a function that returns [_missing] itself is
    run again by every access. *)
Example cached_property_sentinel_recomputed :
  cached.invocations "odd" 5
    (cached.get_many (cached.__init__ cached.return_missing None None) 5 3
       cached.fresh).2 = 3%nat.
Proof. vm_compute. reflexivity. Qed.

Example cached_property_three_accesses :
  cached.invocations "size" 5
    (cached.get_many (cached.__init__ cached.count_attrs None None) 5 3
       cached.fresh).2 = 1%nat ∧
  (cached.get_many (cached.__init__ cached.count_attrs None None) 5 3
     cached.fresh).1 = replicate 3 (Ok (inr (cached.VInt 1))).
Proof. split; vm_compute; reflexivity. Qed.

Example cached_property_name :
  cached.__name__ (cached.__init__ cached.count_attrs None None) = "size"%string ∧
  cached.__name__ (cached.__init__ cached.count_attrs (Some EmptyString) None)
    = "size"%string ∧
  cached.__name__ (cached.__init__ cached.count_attrs (Some "n"%string) None)
    = "n"%string.
Proof. repeat split. Qed.

(** * Further properties *)

(** ** [uniq], continued *)

Section uniq_more.
Context {A : Type} `{Countable A}.
Implicit Types (d : gset A) (s : list A).

Lemma uniq_loop_NoDup_id d s :
  NoDup s → (∀ x, x ∈ s → x ∉ d) → uniq_loop d s = s.
Proof.
  revert d. induction s as [|y s IH]; intros d Hnd Hd; [done|].
  apply NoDup_cons in Hnd as [Hy Hnd]. simpl.
  destruct (decide (y ∈ d)) as [Hin|_].
  - exfalso. apply (Hd y); [apply elem_of_cons; by left|done].
  - f_equal. apply IH; [done|].
    intros x Hx. rewrite not_elem_of_union, not_elem_of_singleton. split.
    + intros ->. done.
    + apply Hd, elem_of_cons. by right.
Qed.

Lemma uniq_loop_filter d d' s :
  uniq_loop (d ∪ d') s = filter (λ x, x ∉ d) (uniq_loop d' s).
Proof.
  revert d'. induction s as [|y s IH]; intros d'; simpl; [done|].
  destruct (decide (y ∈ d')) as [Hy'|Hy'].
  - rewrite decide_True by (apply elem_of_union; by right). apply IH.
  - rewrite filter_cons. destruct (decide (y ∈ d)) as [Hy|Hy].
    + rewrite decide_True by (apply elem_of_union; by left).
      rewrite decide_False by (intros Hn; by apply Hn).
      rewrite <- IH. f_equal. apply set_eq. intros x.
      rewrite !elem_of_union, elem_of_singleton.
      split; [tauto|]. intros [?|[->|?]]; tauto.
    + rewrite decide_False by (rewrite elem_of_union; tauto).
      rewrite decide_True by done.
      f_equal. rewrite <- IH. f_equal. apply set_eq. intros x.
      rewrite !elem_of_union, elem_of_singleton. tauto.
Qed.

Lemma uniq_loop_app d s1 s2 :
  uniq_loop d (s1 ++ s2) =
    uniq_loop d s1 ++ uniq_loop (list_to_set s1 ∪ d) s2.
Proof.
  revert d. induction s1 as [|y s1 IH]; intros d; simpl.
  - f_equal. apply set_eq. intros x. rewrite elem_of_union, elem_of_empty. tauto.
  - destruct (decide (y ∈ d)) as [Hy|Hy].
    + rewrite IH. f_equal. f_equal. apply set_eq. intros x.
      rewrite !elem_of_union, elem_of_singleton.
      split; [tauto|]. intros [[->|?]|?]; tauto.
    + rewrite IH. simpl. f_equal. f_equal. f_equal. apply set_eq. intros x.
      rewrite !elem_of_union, elem_of_singleton. tauto.
Qed.
End uniq_more.

(** X1: the lists [uniq] leaves as they are are exactly the lists without
    duplicates; in particular running [uniq] on its own output changes
    nothing. *)
Theorem uniq_fixed_points {A : Type} `{Countable A} (s : list A) :
  (uniq s = s ↔ NoDup s) ∧ uniq (uniq s) = uniq s.
Proof.
  assert (∀ l : list A, NoDup l → uniq l = l) as Hid.
  { intros l Hl. apply uniq_loop_NoDup_id; [done|].
    intros x _. apply not_elem_of_empty. }
  split; [split|].
  - intros <-. apply uniq_loop_NoDup.
  - apply Hid.
  - apply Hid, uniq_loop_NoDup.
Qed.

(** X2: [uniq] of a concatenation is [uniq] of the first part followed by
    what [uniq] of the second part has that the first part has not. *)
Theorem uniq_app {A : Type} `{Countable A} (s1 s2 : list A) :
  uniq (s1 ++ s2) = uniq s1 ++ filter (λ x, x ∉ s1) (uniq s2).
Proof.
  unfold uniq. rewrite uniq_loop_app, uniq_loop_filter. f_equal.
  apply list_filter_iff. intros x. by rewrite elem_of_list_to_set.
Qed.

(** X3: [uniq] yields as many items as the input has distinct values: the
    length of its output is the size of [set(s)], and the output has the
    same set of values. *)
Theorem uniq_length_set {A : Type} `{Countable A} (s : list A) :
  length (uniq s) = size (list_to_set s : gset A) ∧
  (list_to_set (uniq s) : gset A) = list_to_set s.
Proof.
  assert ((list_to_set (uniq s) : gset A) = list_to_set s) as Hset.
  { apply set_eq. intros x. rewrite !elem_of_list_to_set.
    unfold uniq. rewrite uniq_loop_elem, elem_of_empty. tauto. }
  split; [|done].
  rewrite <- Hset. symmetry. apply size_list_to_set, uniq_loop_NoDup.
Qed.

(** ** [split_sequence] and [split_dict] *)

Section split.
Context {A : Type}.
Implicit Types (s a b : list A) (f : A → bool).

Lemma split_sequence_loop f s a b :
  fold_left
    (λ (ab : list A * list A) item,
       if f item then (ab.1 ++ [item], ab.2) else (ab.1, ab.2 ++ [item]))
    s (a, b)
  = (a ++ filter (λ x, f x = true) s, b ++ filter (λ x, f x ≠ true) s).
Proof.
  revert a b. induction s as [|x s IH]; intros a b; simpl.
  - by rewrite !app_nil_r.
  - rewrite !filter_cons. destruct (f x) eqn:Hx; simpl; rewrite IH.
    + by rewrite <- app_assoc.
    + by rewrite <- app_assoc.
Qed.

Lemma split_sequence_eq f s :
  split_sequence s f =
    (filter (λ x, f x = true) s, filter (λ x, f x ≠ true) s).
Proof. unfold split_sequence. by rewrite split_sequence_loop. Qed.
End split.

(** X4: [split_sequence] returns the items that satisfy [f] and the
    items that do not, each list in the order of the input. *)
Theorem split_sequence_filter {A : Type} (s : list A) (f : A → bool) :
  split_sequence s f =
    (filter (λ x, f x = true) s, filter (λ x, f x = false) s).
Proof.
  rewrite split_sequence_eq. f_equal.
  apply list_filter_iff. intros x. by destruct (f x).
Qed.

(** X5: [split_sequence] loses and invents nothing: the two lists
    together are a rearrangement of the input, so their lengths add up to
    the length of the input, and no item is in the wrong list. *)
Theorem split_sequence_partition {A : Type} (s : list A) (f : A → bool) :
  (split_sequence s f).1 ++ (split_sequence s f).2 ≡ₚ s ∧
  length (split_sequence s f).1 + length (split_sequence s f).2 = length s ∧
  Forall (λ x, f x = true) (split_sequence s f).1 ∧
  Forall (λ x, f x = false) (split_sequence s f).2.
Proof.
  rewrite split_sequence_eq. cbn [fst snd].
  assert (filter (λ x, f x = true) s ++ filter (λ x, f x ≠ true) s ≡ₚ s)
    as Hperm by apply filter_app_complement.
  split; [done|]. split.
  - by rewrite <- length_app, Hperm.
  - split; apply Forall_forall; intros x Hx;
      apply list_elem_of_filter in Hx as [Hfx _]; [done|].
    by destruct (f x).
Qed.

Section split_dict.
Context `{Countable K} {V : Type}.
Implicit Types (d : gmap K V) (f : K → bool) (items : list (K * V)).

Lemma dict_of_filtered_items d items (P : K * V → Prop)
    `{!∀ kv, Decision (P kv)} :
  items ≡ₚ map_to_list d →
  dict_of_items (filter P items) = filter P d.
Proof.
  intros Hitems. unfold dict_of_items.
  rewrite map_filter_alt. apply list_to_map_proper.
  - rewrite reverse_Permutation, Hitems.
    apply (sublist_NoDup _ ((map_to_list d).*1)).
    + apply NoDup_fst_map_to_list.
    + apply fmap_sublist, sublist_filter.
  - by rewrite reverse_Permutation, Hitems.
Qed.

Lemma split_dict_items_eq d f items :
  items ≡ₚ map_to_list d →
  split_dict_items items f =
    (filter (λ kv : K * V, f kv.1 = true) d,
     filter (λ kv : K * V, f kv.1 ≠ true) d).
Proof.
  intros Hitems. unfold split_dict_items.
  rewrite split_sequence_eq.
  by rewrite !(dict_of_filtered_items d).
Qed.
End split_dict.

(** X6: in whatever order the items of [d] are enumerated, [split_dict]
    returns the entries of [d] whose key satisfies [f] and the entries
    whose key does not: a key is looked up in the first dict as in [d] if
    [f] holds for it and is absent otherwise, and the other way round in
    the second. *)
Theorem split_dict_lookup `{Countable K} {V : Type} (d : gmap K V)
    (f : K → bool) (items : list (K * V)) (k : K) :
  items ≡ₚ map_to_list d →
  (split_dict_items items f).1 !! k = (if f k then d !! k else None) ∧
  (split_dict_items items f).2 !! k = (if f k then None else d !! k).
Proof.
  intros Hitems. rewrite (split_dict_items_eq d) by done. cbn [fst snd].
  rewrite !map_lookup_filter.
  destruct (d !! k) as [v|]; simpl; [|by destruct (f k)].
  destruct (f k) eqn:Hk.
  - rewrite option_guard_True, option_guard_False by (simpl; congruence). done.
  - rewrite option_guard_False, option_guard_True by (simpl; congruence). done.
Qed.

Lemma split_dict_lookup_witness :
  (split_dict_items [(1%nat, "a"%string); (2%nat, "b"%string)] Nat.even).1 !! 2%nat
    = (if Nat.even 2 then ({[1%nat := "a"%string; 2%nat := "b"%string]} : gmap nat string) !! 2%nat
       else None) ∧
  (split_dict_items [(1%nat, "a"%string); (2%nat, "b"%string)] Nat.even).2 !! 2%nat
    = (if Nat.even 2 then None
       else ({[1%nat := "a"%string; 2%nat := "b"%string]} : gmap nat string) !! 2%nat).
Proof.
  refine (split_dict_lookup {[1%nat := "a"%string; 2%nat := "b"%string]}
            Nat.even [(1%nat, "a"%string); (2%nat, "b"%string)] 2%nat _).
  vm_compute. apply perm_swap.
Defined.

(** X7: [split_dict] splits: the two dicts have no key in common and
    together they are [d]. *)
Theorem split_dict_disjoint_union `{Countable K} {V : Type} (d : gmap K V)
    (f : K → bool) :
  (split_dict d f).1 ##ₘ (split_dict d f).2 ∧
  (split_dict d f).1 ∪ (split_dict d f).2 = d.
Proof.
  unfold split_dict. rewrite (split_dict_items_eq d) by done. cbn [fst snd].
  split.
  - apply map_disjoint_filter_complement.
  - apply map_filter_union_complement.
Qed.

(** ** [get_etag_from_file], continued: which timestamps share a token *)

Section token_equality.
Local Open Scope Z_scope.

Lemma round_half_even_nonneg (a b : Z) :
  0 <= a → 0 < b → 0 <= Float.round_half_even a b.
Proof.
  intros Ha Hb. pose proof (round_half_even_bounds a b Ha Hb).
  assert (0 <= a / b) by (apply Z.div_pos; lia). lia.
Qed.

Lemma nearest_double_int_nonneg (a : Z) :
  0 <= a → 0 <= Float.nearest_double_int a.
Proof.
  intros Ha. unfold Float.nearest_double_int.
  destruct (Z.leb_spec (Z.log2 a + 1 - Float.prec) 0) as [|Hk]; [done|].
  assert (0 < 2 ^ (Z.log2 a + 1 - Float.prec)) by (apply Z.pow_pos_nonneg; lia).
  pose proof (round_half_even_nonneg a _ Ha H). nia.
Qed.

(** Rounding to the nearest multiple of [b] moves by at most [b / 2]. *)
Lemma round_half_even_error (a b : Z) :
  0 <= a → 0 < b →
  Z.abs (2 * (Float.round_half_even a b * b - a)) <= b.
Proof.
  intros Ha Hb. unfold Float.round_half_even.
  pose proof (Z.div_mod a b ltac:(lia)) as Hdm.
  pose proof (Z.mod_pos_bound a b Hb) as Hr.
  destruct (Z.compare_spec (2 * (a mod b)) b) as [Heq|Hlt|Hgt];
    [destruct (Z.even (a / b))|..]; nia.
Qed.

Lemma decimal_inj (a b : Z) :
  0 <= a → 0 <= b → Fmt.decimal a = Fmt.decimal b → a = b.
Proof.
  intros Ha Hb Heq. unfold Fmt.decimal in Heq.
  apply (f_equal string_of_list_ascii) in Heq.
  rewrite !string_of_list_ascii_of_string in Heq.
  apply (f_equal NilEmpty.uint_of_string) in Heq.
  rewrite !NilEmpty.usu in Heq. injection Heq as Heq.
  apply DecimalN.Unsigned.to_uint_inj in Heq.
  by apply Z2N.inj.
Qed.

Lemma decimal_head_digit (a : Z) (rest : list ascii) :
  ∃ c tl, Fmt.decimal a ++ rest = c :: tl ∧ Fmt.is_digit c = true.
Proof.
  pose proof (decimal_nonempty a) as Hne.
  pose proof (decimal_all_digits a) as Hall.
  destruct (Fmt.decimal a) as [|c tl]; [done|].
  exists c, (tl ++ rest). split; [done|].
  simpl in Hall. by apply andb_true_iff in Hall as [? _].
Qed.

(** The rendering of sign, integer part and fraction determines the sign
    and the integer part. *)
Lemma signed_decimal_inj (s1 s2 : bool) (k1 k2 : Z) (frac : list ascii) :
  0 <= k1 → 0 <= k2 →
  string_of_list_ascii (Fmt.sign s1 ++ Fmt.decimal k1 ++ frac) =
    string_of_list_ascii (Fmt.sign s2 ++ Fmt.decimal k2 ++ frac) →
  s1 = s2 ∧ k1 = k2.
Proof.
  intros Hk1 Hk2 Heq.
  apply (f_equal list_ascii_of_string) in Heq.
  rewrite !list_ascii_of_string_of_list_ascii in Heq.
  destruct (decimal_head_digit k1 frac) as (c1 & tl1 & Hd1 & Hc1).
  destruct (decimal_head_digit k2 frac) as (c2 & tl2 & Hd2 & Hc2).
  destruct s1, s2; cbn [Fmt.sign app] in Heq.
  - split; [done|]. injection Heq as Heq.
    apply app_inv_tail in Heq. by apply decimal_inj.
  - rewrite Hd2 in Heq. injection Heq as <- _. done.
  - rewrite Hd1 in Heq. injection Heq as -> _. done.
  - split; [done|]. apply app_inv_tail in Heq. by apply decimal_inj.
Qed.

Lemma nearest_double_int_2_60 (n : Z) :
  2 ^ 60 <= n < 2 ^ 61 →
  Float.nearest_double_int n = Float.round_half_even n 256 * 256.
Proof.
  intros Hn. unfold Float.nearest_double_int, Float.prec.
  rewrite (Z.log2_unique n 60) by (simpl Z.succ; lia).
  reflexivity.
Qed.
End token_equality.

(** X8: two files with nanosecond timestamps get the same token exactly
    when the timestamps have the same sign and round to the same double
    (53 significant bits, ties to even). *)
Theorem etag_ns_equal_iff (w1 w2 : world) (path1 path2 : string)
    (stat1 stat2 : stat_result) (n1 n2 : Z) :
  os.lookup_stat w1 path1 = Ok stat1 →
  os.lookup_stat w2 path2 = Ok stat2 →
  st_mtime_ns stat1 = Some n1 →
  st_mtime_ns stat2 = Some n2 →
  (Z.abs n1 < 2 ^ 1023)%Z →
  (Z.abs n2 < 2 ^ 1023)%Z →
  (get_etag_from_file path1 w1).1 = (get_etag_from_file path2 w2).1 ↔
  (n1 <? 0)%Z = (n2 <? 0)%Z ∧
  Float.nearest_double_int (Z.abs n1) = Float.nearest_double_int (Z.abs n2).
Proof.
  intros H1 H2 Hn1 Hn2 Hr1 Hr2.
  rewrite !get_etag_from_file_eq, H1, H2. cbn [fst].
  rewrite (etag_of_stat_ns stat1 n1), (etag_of_stat_ns stat2 n2) by done.
  rewrite !format_9f_int by done.
  split.
  - intros [= Heq]. apply signed_decimal_inj in Heq; [done|..];
      apply nearest_double_int_nonneg; lia.
  - by intros [-> ->].
Qed.

Lemma etag_ns_equal_iff_witness :
  (get_etag_from_file "item.ics" sample.linux).1
    = (get_etag_from_file "item.ics" sample.old_file).1 ↔
  (sample.half_past_ns <? 0)%Z = (sample.before_epoch_ns <? 0)%Z ∧
  Float.nearest_double_int (Z.abs sample.half_past_ns)
    = Float.nearest_double_int (Z.abs sample.before_epoch_ns).
Proof.
  refine (etag_ns_equal_iff sample.linux sample.old_file "item.ics" "item.ics"
            {| st_mode := 33188; st_ino := 7; st_size := 3;
               st_mtime := sample.half_past;
               st_mtime_ns := Some sample.half_past_ns |}
            {| st_mode := 33188; st_ino := 7; st_size := 3;
               st_mtime := sample.before_epoch;
               st_mtime_ns := Some sample.before_epoch_ns |}
            sample.half_past_ns sample.before_epoch_ns _ _ _ _ _ _);
    vm_compute; reflexivity.
Defined.

(** X9: for nanosecond timestamps from 2^60 to 2^61 (the years 2006 to
    2043) the token has a resolution of 256 ns: a timestamp up to 127 ns
    after a multiple of 256 ns gets the token of that multiple, so a
    change that moves the modification time by so little is not seen. *)
Theorem etag_ns_resolution_collision (w1 w2 : world) (path1 path2 : string)
    (stat1 stat2 : stat_result) (j r : Z) :
  os.lookup_stat w1 path1 = Ok stat1 →
  os.lookup_stat w2 path2 = Ok stat2 →
  st_mtime_ns stat1 = Some (256 * j)%Z →
  st_mtime_ns stat2 = Some (256 * j + r)%Z →
  (2 ^ 52 ≤ j < 2 ^ 53)%Z →
  (0 ≤ r < 128)%Z →
  (get_etag_from_file path1 w1).1 = (get_etag_from_file path2 w2).1.
Proof.
  intros H1 H2 Hn1 Hn2 Hj Hr.
  rewrite !get_etag_from_file_eq, H1, H2. cbn [fst].
  rewrite (etag_of_stat_ns stat1 _ Hn1), (etag_of_stat_ns stat2 _ Hn2).
  rewrite !format_9f_int by lia.
  replace (256 * j + r <? 0)%Z with false by (symmetry; apply Z.ltb_ge; lia).
  replace (256 * j <? 0)%Z with false by (symmetry; apply Z.ltb_ge; lia).
  rewrite !Z.abs_eq by lia.
  rewrite !nearest_double_int_2_60 by lia.
  do 5 f_equal.
  unfold Float.round_half_even.
  assert ((256 * j) / 256 = j ∧ (256 * j) mod 256 = 0
          ∧ (256 * j + r) / 256 = j ∧ (256 * j + r) mod 256 = r)%Z
    as (-> & -> & -> & ->)
    by (repeat split; Z.to_euclidean_division_equations; lia).
  destruct (Z.compare_spec (2 * 0) 256), (Z.compare_spec (2 * r) 256); lia.
Qed.

Lemma etag_ns_resolution_collision_witness :
  (get_etag_from_file "item.ics" sample.linux).1
    = (get_etag_from_file "item.ics" sample2.linux_plus_100ns).1.
Proof.
  refine (etag_ns_resolution_collision sample.linux sample2.linux_plus_100ns
            "item.ics" "item.ics"
            {| st_mode := 33188; st_ino := 7; st_size := 3;
               st_mtime := sample.half_past;
               st_mtime_ns := Some (256 * 5859375001953125)%Z |}
            {| st_mode := 33188; st_ino := 7; st_size := 3;
               st_mtime := sample.half_past;
               st_mtime_ns := Some (256 * 5859375001953125 + 100)%Z |}
            5859375001953125 100 _ _ _ _ _ _);
    try (vm_compute; reflexivity); lia.
Defined.

(** X10: in the same range of timestamps, two files with the same token
    were modified at most 256 ns apart: a change that moves the
    modification time by more than 256 ns always changes the token. *)
Theorem etag_ns_resolution_bound (w1 w2 : world) (path1 path2 : string)
    (stat1 stat2 : stat_result) (n1 n2 : Z) :
  os.lookup_stat w1 path1 = Ok stat1 →
  os.lookup_stat w2 path2 = Ok stat2 →
  st_mtime_ns stat1 = Some n1 →
  st_mtime_ns stat2 = Some n2 →
  (2 ^ 60 ≤ n1 < 2 ^ 61)%Z →
  (2 ^ 60 ≤ n2 < 2 ^ 61)%Z →
  (get_etag_from_file path1 w1).1 = (get_etag_from_file path2 w2).1 →
  (Z.abs (n1 - n2) ≤ 256)%Z.
Proof.
  intros H1 H2 Hn1 Hn2 Hr1 Hr2.
  rewrite !get_etag_from_file_eq, H1, H2. cbn [fst].
  rewrite (etag_of_stat_ns stat1 n1), (etag_of_stat_ns stat2 n2) by done.
  rewrite !format_9f_int by lia.
  intros [= Heq]. apply signed_decimal_inj in Heq as [_ Heq];
    [|apply nearest_double_int_nonneg; lia..].
  rewrite !Z.abs_eq, !nearest_double_int_2_60 in Heq by lia.
  pose proof (round_half_even_error n1 256 ltac:(lia) ltac:(lia)).
  pose proof (round_half_even_error n2 256 ltac:(lia) ltac:(lia)).
  lia.
Qed.

Lemma etag_ns_resolution_bound_witness :
  (Z.abs (256 * 5859375001953125 - (256 * 5859375001953125 + 100)) ≤ 256)%Z.
Proof.
  refine (etag_ns_resolution_bound sample.linux sample2.linux_plus_100ns
            "item.ics" "item.ics"
            {| st_mode := 33188; st_ino := 7; st_size := 3;
               st_mtime := sample.half_past;
               st_mtime_ns := Some (256 * 5859375001953125)%Z |}
            {| st_mode := 33188; st_ino := 7; st_size := 3;
               st_mtime := sample.half_past;
               st_mtime_ns := Some (256 * 5859375001953125 + 100)%Z |}
            _ _ _ _ _ _ _ _ _);
    try (vm_compute; reflexivity); lia.
Defined.

(** ** [get_etag_from_fileobject], continued: every run, failed or not *)

Section fileobject_traces.
Implicit Types (w : world) (f : nat).

Lemma flush_trace f w :
  w_trace (file.flush f w).2 = w_trace w ++ [EvFlush f] ∧
  sys_platform (file.flush f w).2 = sys_platform w.
Proof.
  unfold file.flush. cbv zeta. cbn [log w_objects w_fds w_inodes w_now].
  destruct (w_objects w !! f) as [o|]; [|done].
  destruct (fo_closed o); [done|].
  destruct (fo_buffer o); [done|].
  destruct (w_fds w !! fo_fd o) as [ino|]; [|done].
  by destruct (w_inodes w !! ino).
Qed.

Lemma fsync_trace (fd : Z) w :
  w_trace (os.fsync fd w).2 = w_trace w ++ [EvFsync fd].
Proof.
  unfold os.fsync. cbv zeta. cbn [log w_fds w_inodes].
  destruct (w_fds w !! fd) as [ino|]; [|done].
  by destruct (w_inodes w !! ino).
Qed.

(** The events of a run, after the flush. *)
Lemma fileobject_events f w :
  ∃ evs,
    w_trace (get_etag_from_fileobject f w).2 = w_trace w ++ EvFlush f :: evs ∧
    (evs = [] ∧ (∃ e, (get_etag_from_fileobject f w).1 = Raise e) ∨
     (∃ path, evs = [EvStat path] ∧ sys_platform w ≠ "win32"%string ∧
              ∃ w1, file.flush f w = (Ok tt, w1)) ∨
     (∃ fd, evs = [EvFsync fd] ∧ sys_platform w = "win32"%string ∧
            (∃ e, (get_etag_from_fileobject f w).1 = Raise e) ∧
            ∃ w1, file.flush f w = (Ok tt, w1)) ∨
     (∃ fd path, evs = [EvFsync fd; EvStat path] ∧
                 sys_platform w = "win32"%string ∧
                 ∃ w1 w2, file.flush f w = (Ok tt, w1) ∧
                          os.fsync fd w1 = (Ok tt, w2))).
Proof.
  pose proof (flush_trace f w) as [Htr Hplat].
  destruct (get_etag_from_fileobject f w) as [r w'] eqn:Hrun. cbn [fst snd].
  unfold get_etag_from_fileobject, mbind, io_bind, bind, platform in Hrun.
  destruct (file.flush f w) as [[[]|e] w1] eqn:Hflush; cbn [snd] in Htr, Hplat.
  2:{ injection Hrun as <- <-. exists []. split; [done|]. left. eauto. }
  destruct (flush_ok _ _ _ Hflush)
    as (o & o1 & Ho & Ho1 & Hname & Hfd & Hopen & _ & _).
  cbv beta iota in Hrun. rewrite Hplat in Hrun.
  destruct (String.eqb_spec (sys_platform w) "win32") as [Hwin|Hwin].
  - unfold file.fileno in Hrun. rewrite Ho1, Hopen in Hrun.
    pose proof (fsync_trace (fo_fd o1) w1) as Htr2.
    destruct (os.fsync (fo_fd o1) w1) as [[[]|e] w2] eqn:Hsync; cbn [snd] in Htr2.
    + destruct (fsync_ok _ _ _ Hsync) as (Hobjs & _).
      unfold file.name in Hrun. rewrite Hobjs, Ho1 in Hrun.
      rewrite get_etag_from_file_eq in Hrun. injection Hrun as <- <-.
      cbn [log w_trace].
      exists [EvFsync (fo_fd o1); EvStat (fo_name o1)]. split.
      * rewrite Htr2, Htr, <- !app_assoc. done.
      * right. right. right. eauto 10.
    + injection Hrun as <- <-. exists [EvFsync (fo_fd o1)]. split.
      * rewrite Htr2, Htr, <- !app_assoc. done.
      * right. right. left. eauto 10.
  - unfold mret, io_ret, ret, file.name in Hrun. rewrite Ho1 in Hrun.
    rewrite get_etag_from_file_eq in Hrun. injection Hrun as <- <-.
    cbn [log w_trace].
    exists [EvStat (fo_name o1)]. split.
    + rewrite Htr, <- !app_assoc. done.
    + right. left. eauto 10.
Qed.
End fileobject_traces.

(** X11: whatever the outcome, [get_etag_from_fileobject] begins with
    the flush of the file object, and on a platform other than [win32] it
    never calls [os.fsync], not even on a failing run. *)
Theorem fileobject_flush_first (f : nat) (w : world) :
  ∃ evs,
    w_trace (get_etag_from_fileobject f w).2 = w_trace w ++ EvFlush f :: evs ∧
    (sys_platform w ≠ "win32"%string → ∀ fd, EvFsync fd ∉ evs).
Proof.
  destruct (fileobject_events f w) as (evs & Htr & Hcases).
  exists evs. split; [done|]. intros Hplat fd Hin.
  destruct Hcases as [[-> _]|[(path & -> & _)|[(fd' & _ & Hwin & _)|
                     (fd' & path & _ & Hwin & _)]]]; try done.
  - by apply elem_of_nil in Hin.
  - apply elem_of_cons in Hin as [?|Hin]; [done|]. by apply elem_of_nil in Hin.
Qed.

(** The runs of [get_etag_from_fileobject] on an existing file object,
    by what the flush and the [fsync] of its descriptor do. *)
Lemma fileobject_flush_ok_run (f : nat) (o : fileobject) (w w1 : world) :
  w_objects w !! f = Some o →
  file.flush f w = (Ok tt, w1) →
  get_etag_from_fileobject f w =
    if String.eqb (sys_platform w) "win32"
    then match os.fsync (fo_fd o) w1 with
         | (Ok _, w2) => get_etag_from_file (fo_name o) w2
         | (Raise e, w2) => (Raise e, w2)
         end
    else get_etag_from_file (fo_name o) w1.
Proof.
  intros Ho Hflush.
  destruct (flush_ok _ _ _ Hflush)
    as (o' & o1 & Ho' & Ho1 & Hname & Hfd & Hopen & Hplat & _).
  assert (o' = o) as -> by congruence.
  unfold get_etag_from_fileobject, mbind, io_bind, bind, platform.
  rewrite Hflush. cbv beta iota. rewrite Hplat.
  destruct (String.eqb (sys_platform w) "win32").
  - unfold file.fileno. rewrite Ho1, Hopen, Hfd.
    destruct (os.fsync (fo_fd o) w1) as [[[]|e] w2] eqn:Hsync; [|done].
    destruct (fsync_ok _ _ _ Hsync) as (Hobjs & _).
    unfold file.name. by rewrite Hobjs, Ho1, Hname.
  - unfold mret, io_ret, ret, file.name. by rewrite Ho1, Hname.
Qed.

(** X12: [get_etag_from_fileobject] queries the metadata only after the
    flush of [f] has succeeded and, on [win32], the [fsync] of [f]'s own
    descriptor as well. When the flush raises, or on [win32] the [fsync]
    of [f.fileno()] raises, the run raises that exception in the world
    the failing call left, and no [os.stat] takes place. *)
Theorem fileobject_stat_after_flush (f : nat) (w : world) :
  (∀ path,
     EvStat path ∈ drop (length (w_trace w))
                        (w_trace (get_etag_from_fileobject f w).2) →
     ∃ o w1, w_objects w !! f = Some o ∧
             file.flush f w = (Ok tt, w1) ∧
             (sys_platform w = "win32"%string →
              ∃ w2, os.fsync (fo_fd o) w1 = (Ok tt, w2))) ∧
  (∀ e w1,
     file.flush f w = (Raise e, w1) →
     get_etag_from_fileobject f w = (Raise e, w1) ∧
     ∀ path, EvStat path ∉ drop (length (w_trace w)) (w_trace w1)) ∧
  (∀ o w1 e w2,
     sys_platform w = "win32"%string →
     w_objects w !! f = Some o →
     file.flush f w = (Ok tt, w1) →
     os.fsync (fo_fd o) w1 = (Raise e, w2) →
     get_etag_from_fileobject f w = (Raise e, w2) ∧
     ∀ path, EvStat path ∉ drop (length (w_trace w)) (w_trace w2)).
Proof.
  pose proof (flush_trace f w) as [Htr _].
  assert (∀ e w1, file.flush f w = (Raise e, w1) →
            get_etag_from_fileobject f w = (Raise e, w1) ∧
            ∀ path, EvStat path ∉ drop (length (w_trace w)) (w_trace w1))
    as Hflush_fails.
  { intros e w1 Hflush. rewrite Hflush in Htr. cbn [snd] in Htr.
    split; [by apply fileobject_flush_error|].
    intros path. rewrite Htr, drop_app_length.
    intros Hin. apply elem_of_cons in Hin as [?|Hin]; [done|].
    by apply elem_of_nil in Hin. }
  assert (∀ o w1 e w2, sys_platform w = "win32"%string →
            w_objects w !! f = Some o → file.flush f w = (Ok tt, w1) →
            os.fsync (fo_fd o) w1 = (Raise e, w2) →
            get_etag_from_fileobject f w = (Raise e, w2) ∧
            ∀ path, EvStat path ∉ drop (length (w_trace w)) (w_trace w2))
    as Hsync_fails.
  { intros o w1 e w2 Hwin Ho Hflush Hsync.
    rewrite (fileobject_flush_ok_run f o w w1 Ho Hflush), Hwin, Hsync.
    split; [done|]. intros path.
    pose proof (fsync_trace (fo_fd o) w1) as Htr2.
    rewrite Hsync in Htr2. cbn [snd] in Htr2.
    rewrite Hflush in Htr. cbn [snd] in Htr.
    rewrite Htr2, Htr, <- app_assoc, drop_app_length.
    intros Hin. apply elem_of_cons in Hin as [?|Hin]; [done|].
    apply elem_of_cons in Hin as [?|Hin]; [done|].
    by apply elem_of_nil in Hin. }
  split; [|by split].
  intros path Hin.
  destruct (file.flush f w) as [[[]|e] w1] eqn:Hflush.
  - destruct (flush_ok _ _ _ Hflush) as (o & _ & Ho & _).
    exists o, w1. split; [done|]. split; [done|]. intros Hwin.
    destruct (os.fsync (fo_fd o) w1) as [[[]|e] w2] eqn:Hsync; [by exists w2|].
    destruct (Hsync_fails o w1 e w2 Hwin Ho eq_refl Hsync) as [Hrun Hnostat].
    rewrite Hrun in Hin. cbn [snd] in Hin. by destruct (Hnostat path).
  - destruct (Hflush_fails e w1 eq_refl) as [Hrun Hnostat].
    rewrite Hrun in Hin. cbn [snd] in Hin. by destruct (Hnostat path).
Qed.

(** On [win32], with [f] on a descriptor that is not open, the [fsync]
    raises although another descriptor could be synchronized: the run
    raises and ends without a metadata query. *)
Example fileobject_fsync_fails :
  get_etag_from_fileobject 1 sample3.win32_bad_descriptor
    = (Raise (OSError EBADF None),
       log (EvFsync 5) (log (EvFlush 1) sample3.win32_bad_descriptor)) ∧
  w_trace (get_etag_from_fileobject 1 sample3.win32_bad_descriptor).2
    = [EvFlush 1; EvFsync 5] ∧
  (os.fsync 3 (log (EvFlush 1) sample3.win32_bad_descriptor)).1 = Ok tt.
Proof. repeat split; vm_compute; reflexivity. Qed.

(** ** [cached_property], continued *)

Section cached_more.
Import cached.
Implicit Types (self : cached_property) (o : nat) (st : pstate) (v : value).

(** An access that finds nothing stored (or the sentinel) runs the
    function. *)
Lemma get_absent self o st d :
  st_heap st !! o = Some d →
  is_missing (default _missing (d !! __name__ self)) = true →
  __get__ self (Some o) st =
    let calls := st_calls st ++ [(__name__ self, o)] in
    match fn_call (func self) o (st_heap st) with
    | (Raise e, h) => (Raise e, {| st_heap := h; st_calls := calls |})
    | (Ok value, h) =>
        match h !! o with
        | None => (Raise (AttributeError "__dict__"),
                   {| st_heap := h; st_calls := calls |})
        | Some d' =>
            (Ok (inr value),
             {| st_heap := <[o := <[__name__ self := value]> d']> h;
                st_calls := calls |})
        end
    end.
Proof. intros Hd Hmiss. unfold __get__. by rewrite Hd, Hmiss. Qed.
End cached_more.

(** X13: the cache is keyed by the property's name alone. When two
    cached properties of one object have the same [__name__], an access
    through the second returns what the first has stored and does not run
    the second's function. *)
Theorem cached_property_shared_name (p1 p2 : cached.cached_property) (o : nat)
    (st st1 : cached.pstate) (v : cached.value) :
  cached.__name__ p1 = cached.__name__ p2 →
  cached.__get__ p1 (Some o) st = (Ok (inr v), st1) →
  cached.is_missing v = false →
  cached.__get__ p2 (Some o) st1 = (Ok (inr v), st1).
Proof.
  intros Hname Hget Hv.
  destruct (get_first p1 o st st1 v Hget Hv) as [(d1 & Hd1 & Hstored) _].
  apply (get_stored p2 o st1 d1 v); [done| |done].
  by rewrite <- Hname.
Qed.

Lemma cached_property_shared_name_witness :
  cached.__get__
    (cached.__init__ cached_sample.constant_seven (Some "size"%string) None)
    (Some 5%nat)
    (cached.__get__ (cached.__init__ cached.count_attrs None None)
       (Some 5%nat) cached.fresh).2
  = (Ok (inr (cached.VInt 1)),
     (cached.__get__ (cached.__init__ cached.count_attrs None None)
        (Some 5%nat) cached.fresh).2).
Proof.
  refine (cached_property_shared_name
            (cached.__init__ cached.count_attrs None None)
            (cached.__init__ cached_sample.constant_seven (Some "size"%string) None)
            5 cached.fresh _ (cached.VInt 1) _ _ _).
  - reflexivity.
  - vm_compute. reflexivity.
  - reflexivity.
Defined.

(** X14: exceptions are not cached. When the wrapped function raises
    (and leaves the heap alone), the access raises the same exception and
    stores nothing, so each of [n] accesses runs the function again. *)
Theorem cached_property_raise_not_cached (self : cached.cached_property)
    (o : nat) (st : cached.pstate) (d : gmap string cached.value) (e : exn)
    (n : nat) :
  cached.st_heap st !! o = Some d →
  d !! cached.__name__ self = None →
  (∀ h, cached.fn_call (cached.func self) o h = (Raise e, h)) →
  cached.get_many self o n st =
    (replicate n (Raise e),
     {| cached.st_heap := cached.st_heap st;
        cached.st_calls :=
          cached.st_calls st ++ replicate n (cached.__name__ self, o) |}).
Proof.
  intros Hd Hnone Hraise. revert st Hd.
  induction n as [|n IH]; intros st Hd.
  - simpl. rewrite app_nil_r. by destruct st.
  - cbn [cached.get_many].
    rewrite (get_absent self o st d) by (done || by rewrite Hnone).
    cbv zeta. rewrite Hraise.
    rewrite IH by done. cbn [cached.st_heap cached.st_calls].
    by rewrite <- app_assoc.
Qed.

Lemma cached_property_raise_not_cached_witness :
  cached.get_many (cached.__init__ cached_sample.always_raises None None) 5 3
    cached.fresh =
    (replicate 3 (Raise ValueError),
     {| cached.st_heap := cached.st_heap cached.fresh;
        cached.st_calls :=
          cached.st_calls cached.fresh ++
          replicate 3
            (cached.__name__
               (cached.__init__ cached_sample.always_raises None None), 5%nat) |}).
Proof.
  refine (cached_property_raise_not_cached
            (cached.__init__ cached_sample.always_raises None None) 5
            cached.fresh {["path" := cached.VStr "/tmp"]} ValueError 3 _ _ _).
  - vm_compute. reflexivity.
  - vm_compute. reflexivity.
  - intros h. reflexivity.
Defined.

(** X15: the sentinel is not cached either. When the wrapped function
    returns [_missing] itself (and leaves the heap alone), every access
    returns [_missing] and runs the function again: [n] accesses are [n]
    invocations. *)
Theorem cached_property_sentinel_not_cached (self : cached.cached_property)
    (o : nat) (st : cached.pstate) (d : gmap string cached.value) (n : nat) :
  cached.st_heap st !! o = Some d →
  cached.is_missing (default cached._missing (d !! cached.__name__ self)) = true →
  (∀ h, cached.fn_call (cached.func self) o h = (Ok cached._missing, h)) →
  (cached.get_many self o n st).1 = replicate n (Ok (inr cached._missing)) ∧
  cached.st_calls (cached.get_many self o n st).2 =
    cached.st_calls st ++ replicate n (cached.__name__ self, o).
Proof.
  intros Hd Hmiss Hret. revert st d Hd Hmiss.
  induction n as [|n IH]; intros st d Hd Hmiss.
  - simpl. by rewrite app_nil_r.
  - cbn [cached.get_many].
    rewrite (get_absent self o st d) by done.
    cbv zeta. rewrite Hret, Hd.
    specialize (IH {| cached.st_heap :=
                        <[o := <[cached.__name__ self := cached._missing]> d]>
                          (cached.st_heap st);
                      cached.st_calls :=
                        cached.st_calls st ++ [(cached.__name__ self, o)] |}
                   (<[cached.__name__ self := cached._missing]> d)).
    destruct (cached.get_many self o n _) as [rs st2].
    cbn [fst snd cached.st_heap cached.st_calls] in *.
    destruct IH as [-> ->].
    + by rewrite lookup_insert_eq.
    + by rewrite lookup_insert_eq.
    + split; [done|]. by rewrite <- app_assoc.
Qed.

Lemma cached_property_sentinel_not_cached_witness :
  (cached.get_many (cached.__init__ cached.return_missing None None) 5 3
     cached.fresh).1 = replicate 3 (Ok (inr cached._missing)) ∧
  cached.st_calls
    (cached.get_many (cached.__init__ cached.return_missing None None) 5 3
       cached.fresh).2 =
    cached.st_calls cached.fresh ++
    replicate 3
      (cached.__name__ (cached.__init__ cached.return_missing None None), 5%nat).
Proof.
  refine (cached_property_sentinel_not_cached
            (cached.__init__ cached.return_missing None None) 5
            cached.fresh {["path" := cached.VStr "/tmp"]} 3 _ _ _).
  - vm_compute. reflexivity.
  - vm_compute. reflexivity.
  - intros h. reflexivity.
Defined.

(** ** [get_class_init_args] *)

Example get_class_init_args_sample :
  introspect.get_class_init_args introspect.sample_classes 10 2 0
    = introspect.Return
        ({["path"; "fileext"; "encoding"; "instance_name"; "read_only"]}%string,
         {["path"; "fileext"]}%string).
Proof. vm_compute. reflexivity. Qed.

Section init_args.
Import introspect.
Local Open Scope Z_scope.

Lemma slice_from_1_neg {A : Type} (l : list A) (k : nat) :
  slice l 1 (- Z.of_nat k) =
    match k with
    | O => []
    | S _ => take (length l - 1 - k) (drop 1 l)
    end.
Proof.
  unfold slice, slice_index.
  destruct l as [|x l]; [by destruct k|].
  cbn [length]. rewrite Nat2Z.inj_succ.
  replace (1 <? 0) with false by done.
  replace (Z.to_nat (Z.min 1 (Z.succ (Z.of_nat (length l))))) with 1%nat by lia.
  destruct k as [|k].
  - change (- Z.of_nat 0 <? 0) with false. cbv iota.
    replace (Z.to_nat _) with 0%nat by lia. done.
  - replace (- Z.of_nat (S k) <? 0) with true by (symmetry; apply Z.ltb_lt; lia).
    f_equal. lia.
Qed.

Lemma slice_from_1_subseteq {A : Type} (l : list A) (k : nat) (x : A) :
  x ∈ slice l 1 (- Z.of_nat k) → x ∈ drop 1 l.
Proof.
  rewrite slice_from_1_neg. destruct k; [by intros ?%elem_of_nil|].
  apply (subseteq_take _ _ x).
Qed.

Lemma update_args_subseteq (acc : gset string * gset string) (spec : argspec) :
  acc.2 ⊆ acc.1 → (update_args acc spec).2 ⊆ (update_args acc spec).1.
Proof.
  intros Hacc x. unfold update_args. cbn [fst snd].
  rewrite !elem_of_union, !elem_of_list_to_set.
  intros [Hx|Hx]; [left; by apply Hacc|right].
  by apply slice_from_1_subseteq in Hx.
Qed.

Lemma fold_update_args_subseteq (specs : list argspec)
    (acc : gset string * gset string) :
  acc.2 ⊆ acc.1 →
  (fold_left update_args specs acc).2 ⊆ (fold_left update_args specs acc).1.
Proof.
  revert acc. induction specs as [|spec specs IH]; intros acc Hacc; [done|].
  simpl. by apply IH, update_args_subseteq.
Qed.

Lemma fold_update_args_no_defaults (specs : list argspec)
    (acc : gset string * gset string) :
  Forall (λ spec, default [] (defaults spec) = []) specs →
  (fold_left update_args specs acc).2 = acc.2.
Proof.
  revert acc. induction specs as [|spec specs IH]; intros acc Hspecs; [done|].
  apply Forall_cons in Hspecs as [Hspec Hspecs].
  simpl. rewrite IH by done. unfold update_args. cbn [snd].
  rewrite Hspec. cbn [length]. rewrite (slice_from_1_neg _ 0).
  apply set_eq. intros x.
  rewrite elem_of_union, elem_of_list_to_set, elem_of_nil. tauto.
Qed.
End init_args.

(** X16: whenever [get_class_init_args] returns, the required arguments
    are among all arguments. *)
Theorem init_args_required_subseteq (classes : nat → introspect.pyclass)
    (depth cls stop_at : nat) (all required : gset string) :
  introspect.get_class_init_args classes depth cls stop_at
    = introspect.Return (all, required) →
  required ⊆ all.
Proof.
  unfold introspect.get_class_init_args.
  destruct depth as [|depth]; [done|].
  destruct (introspect.get_class_init_specs classes depth cls stop_at)
    as [specs|e]; [|done].
  intros [= Hall]. 
  pose proof (fold_update_args_subseteq specs (∅, ∅)) as Hsub.
  rewrite Hall in Hsub. apply Hsub. done.
Qed.

Lemma init_args_required_subseteq_witness :
  ({["path"; "fileext"]}%string : gset string)
    ⊆ {["path"; "fileext"; "encoding"; "instance_name"; "read_only"]}%string.
Proof.
  refine (init_args_required_subseteq introspect.sample_classes 10 2 0 _ _ _).
  vm_compute. reflexivity.
Defined.

(** X17: an [__init__] without default values adds nothing to the
    required arguments, because [spec.args[1:-0]] is the empty slice: when
    no [__init__] on the chain has defaults, the set of required arguments
    is empty, whatever the arguments are. *)
Theorem init_args_no_defaults (classes : nat → introspect.pyclass)
    (depth cls stop_at : nat) (specs : list introspect.argspec) :
  introspect.get_class_init_specs classes depth cls stop_at
    = introspect.Return specs →
  Forall (λ spec, introspect.defaults spec = None ∨
                  introspect.defaults spec = Some []) specs →
  ∃ all, introspect.get_class_init_args classes (S depth) cls stop_at
           = introspect.Return (all, ∅) ∧
         ∀ spec x, spec ∈ specs → x ∈ drop 1 (introspect.args spec) → x ∈ all.
Proof.
  intros Hspecs Hnone. unfold introspect.get_class_init_args. rewrite Hspecs.
  exists (fold_left introspect.update_args specs (∅, ∅)).1. split.
  - f_equal. rewrite (surjective_pairing (fold_left _ _ _)). f_equal.
    rewrite fold_update_args_no_defaults; [done|].
    eapply Forall_impl; [apply Hnone|]. by intros spec [->| ->].
  - clear Hspecs Hnone. generalize (∅ : gset string, ∅ : gset string).
    induction specs as [|spec0 specs IH]; intros acc spec x Hin Hx.
    + by apply elem_of_nil in Hin.
    + simpl. apply elem_of_cons in Hin as [->|Hin]; [|by eapply IH].
      assert (∀ (l : list introspect.argspec) a y,
                y ∈ a.1 → y ∈ (fold_left introspect.update_args l a).1) as Hmono.
      { induction l as [|s l IHl]; intros a y Hy; [done|].
        simpl. apply IHl. unfold introspect.update_args. cbn [fst].
        apply elem_of_union. by left. }
      apply Hmono. unfold introspect.update_args. cbn [fst].
      apply elem_of_union. right. by apply elem_of_list_to_set.
Qed.

Lemma init_args_no_defaults_witness :
  ∃ all, introspect.get_class_init_args introspect.sample_classes 3 3 1
           = introspect.Return (all, ∅) ∧
         ∀ spec x,
           spec ∈ [ {| introspect.args := ["self"; "url"; "username"]%string;
                       introspect.varargs := None;
                       introspect.keywords := Some "kwargs"%string;
                       introspect.defaults := None |} ] →
           x ∈ drop 1 (introspect.args spec) → x ∈ all.
Proof.
  refine (init_args_no_defaults introspect.sample_classes 2 3 1 _ _ _).
  - vm_compute. reflexivity.
  - repeat constructor.
Defined.

(** X18: for a class directly below [stop_at], all arguments are the
    arguments of its [__init__] after the first ([self]), and the required
    ones are those that come before the last [k] of them, where [k] is the
    number of default values; with no defaults ([k = 0]) none is
    required. *)
Theorem init_args_single_class (classes : nat → introspect.pyclass)
    (depth cls stop_at x : nat) (rest : list nat) (spec : introspect.argspec) :
  cls ≠ stop_at →
  introspect.init_argspec (classes cls) = Some spec →
  introspect.mro_tail (classes cls) = x :: rest →
  default x (introspect.init_objclass (classes x)) = stop_at →
  introspect.get_class_init_args classes (3 + depth) cls stop_at =
    introspect.Return
      (list_to_set (drop 1 (introspect.args spec)),
       match length (default [] (introspect.defaults spec)) with
       | O => ∅
       | S _ as k =>
           list_to_set
             (take (length (introspect.args spec) - 1 - k)
                (drop 1 (introspect.args spec)))
       end).
Proof.
  intros Hne Hspec Hmro Hsuper.
  cbn [introspect.get_class_init_args introspect.get_class_init_specs Nat.add].
  apply Nat.eqb_neq in Hne. rewrite Hne, Hspec, Hmro, Hsuper, Nat.eqb_refl.
  cbn [fold_left]. unfold introspect.update_args. cbn [fst snd].
  rewrite slice_from_1_neg. f_equal. f_equal.
  - apply set_eq. intros y. rewrite elem_of_union, elem_of_empty. tauto.
  - destruct (length (default [] (introspect.defaults spec)));
      apply set_eq; intros y;
      rewrite elem_of_union, ?elem_of_list_to_set, ?elem_of_nil, elem_of_empty;
      tauto.
Qed.

Lemma init_args_single_class_witness :
  introspect.get_class_init_args introspect.sample_classes (3 + 0) 2 1 =
    introspect.Return
      (list_to_set (drop 1 ["self"; "path"; "fileext"; "encoding"]%string),
       match length (default [] (Some [cached.VStr "utf-8"])) with
       | O => ∅
       | S _ as k =>
           list_to_set
             (take (length ["self"; "path"; "fileext"; "encoding"]%string - 1 - k)
                (drop 1 ["self"; "path"; "fileext"; "encoding"]%string))
       end).
Proof.
  refine (init_args_single_class introspect.sample_classes 0 2 1 1 [0%nat]
            {| introspect.args := ["self"; "path"; "fileext"; "encoding"]%string;
               introspect.varargs := None;
               introspect.keywords := Some "kwargs"%string;
               introspect.defaults := Some [cached.VStr "utf-8"] |} _ _ _ _).
  - discriminate.
  - reflexivity.
  - reflexivity.
  - reflexivity.
Defined.

(** ** [checkdir] and [checkfile] *)

Example checkdir_sample :
  (checks.checkdir checks.sample_makedirs "store" true 488 sample.linux).1
    = checks.Done tt ∧
  checks.isdir
    (checks.checkdir checks.sample_makedirs "store" true 488 sample.linux).2
    "store" = true ∧
  (checks.checkdir checks.sample_makedirs "store" false 488 sample.linux).1
    = checks.Fail (checks.CollectionNotFound "Directory store does not exist.") ∧
  (checks.checkdir checks.sample_makedirs "item.ics" true 488 sample.linux).1
    = checks.Fail (checks.IOError "item.ics is not a directory.") ∧
  checks.sample_dirname "store/item.ics" = "store"%string.
Proof. repeat split; vm_compute; reflexivity. Qed.

Section checks_facts.
Import checks.
Implicit Types (w : world) (path : string).

Lemma isdir_exists w path : isdir w path = true → exists_ w path = true.
Proof. unfold isdir, exists_. by destruct (os.lookup_stat w path). Qed.

Lemma isfile_exists w path : isfile w path = true → exists_ w path = true.
Proof. unfold isfile, exists_. by destruct (os.lookup_stat w path). Qed.

Lemma checkdir_isdir makedirs path create mode w :
  isdir w path = true → checkdir makedirs path create mode w = (Done tt, w).
Proof. intros Hdir. unfold checkdir. by rewrite Hdir. Qed.

(** Without [create], or with something at the path, [checkdir] only
    looks. *)
Lemma checkdir_looks makedirs path create mode w :
  create = false ∨ exists_ w path = true →
  checkdir makedirs path create mode w =
    (if isdir w path then Done tt
     else if exists_ w path
          then Fail (IOError (path +:+ " is not a directory."))
          else Fail (CollectionNotFound
                       ("Directory " +:+ path +:+ " does not exist.")), w).
Proof.
  intros Hcase. unfold checkdir.
  destruct (isdir w path); [done|]. simpl.
  destruct (exists_ w path); [done|].
  by destruct Hcase as [->|?].
Qed.

Lemma checkdir_done_isdir makedirs path create mode w w' :
  (∀ w1, makedirs path mode w = (Ok tt, w1) → isdir w1 path = true) →
  checkdir makedirs path create mode w = (Done tt, w') →
  isdir w' path = true.
Proof.
  intros Hmk Hrun. unfold checkdir in Hrun.
  destruct (isdir w path) eqn:Hd; simpl in Hrun.
  - by injection Hrun as <-.
  - destruct (exists_ w path); [done|].
    destruct create; [|done].
    unfold lift_io in Hrun.
    destruct (makedirs path mode w) as [[[]|e] w1] eqn:Hm; [|done].
    injection Hrun as <-. by apply Hmk.
Qed.
End checks_facts.

(** X19: whenever [checkdir] returns, the path is a directory, given
    that a successful [os.makedirs] leaves one there; calling [checkdir]
    again then returns at once and changes nothing, whatever [create] and
    [mode] are. *)
Theorem checkdir_returns_directory (makedirs : string → Z → io unit)
    (path : string) (create : bool) (mode : Z) (w w' : world) :
  (∀ w1, makedirs path mode w = (Ok tt, w1) → checks.isdir w1 path = true) →
  checks.checkdir makedirs path create mode w = (checks.Done tt, w') →
  checks.isdir w' path = true ∧
  ∀ create' mode',
    checks.checkdir makedirs path create' mode' w' = (checks.Done tt, w').
Proof.
  intros Hmk Hrun.
  assert (checks.isdir w' path = true) as Hdir
    by apply (checkdir_done_isdir makedirs path create mode w w' Hmk Hrun).
  split; [done|]. intros create' mode'. by apply checkdir_isdir.
Qed.

Lemma checkdir_returns_directory_witness :
  checks.isdir
    (checks.checkdir checks.sample_makedirs "store" true 488 sample.linux).2
    "store" = true ∧
  ∀ create' mode',
    checks.checkdir checks.sample_makedirs "store" create' mode'
      (checks.checkdir checks.sample_makedirs "store" true 488 sample.linux).2
    = (checks.Done tt,
       (checks.checkdir checks.sample_makedirs "store" true 488 sample.linux).2).
Proof.
  refine (checkdir_returns_directory checks.sample_makedirs "store" true 488
            sample.linux _ _ _).
  - intros w1 Hmk. vm_compute in Hmk. injection Hmk as <-.
    vm_compute. reflexivity.
  - vm_compute. reflexivity.
Defined.

(** X20: [checkdir] changes the world only when [create] is set and
    nothing is at the path. Otherwise it leaves the world as it is and
    returns exactly when the path is a directory; something else at the
    path is an [IOError] even with [create]. *)
Theorem checkdir_only_looks (makedirs : string → Z → io unit)
    (path : string) (create : bool) (mode : Z) (w : world) :
  create = false ∨ checks.exists_ w path = true →
  (checks.checkdir makedirs path create mode w).2 = w ∧
  ((checks.checkdir makedirs path create mode w).1 = checks.Done tt
     ↔ checks.isdir w path = true) ∧
  (checks.exists_ w path = true → checks.isdir w path = false →
   (checks.checkdir makedirs path create mode w).1
     = checks.Fail (checks.IOError (path +:+ " is not a directory."))).
Proof.
  intros Hcase. rewrite checkdir_looks by done. cbn [fst snd].
  split; [done|]. split.
  - destruct (checks.isdir w path); [done|].
    by destruct (checks.exists_ w path).
  - by intros -> ->.
Qed.

Lemma checkdir_only_looks_witness :
  (checks.checkdir checks.sample_makedirs "item.ics" true 488 sample.linux).2
    = sample.linux ∧
  ((checks.checkdir checks.sample_makedirs "item.ics" true 488 sample.linux).1
     = checks.Done tt ↔ checks.isdir sample.linux "item.ics" = true) ∧
  (checks.exists_ sample.linux "item.ics" = true →
   checks.isdir sample.linux "item.ics" = false →
   (checks.checkdir checks.sample_makedirs "item.ics" true 488 sample.linux).1
     = checks.Fail (checks.IOError ("item.ics" +:+ " is not a directory."))).
Proof.
  refine (checkdir_only_looks checks.sample_makedirs "item.ics" true 488
            sample.linux _).
  right. vm_compute. reflexivity.
Defined.

(** X21: whenever [checkfile] returns, the path is a regular file in a
    directory, given that a successful [open] for writing leaves a
    regular file at the path and keeps the parent a directory, and that a
    successful [os.makedirs] leaves a directory; calling [checkfile] again
    then returns at once and changes nothing, so the file is not opened
    a second time. *)
Theorem checkfile_returns_file (makedirs : string → Z → io unit)
    (open_wb : string → io unit) (dirname : string → string)
    (path : string) (create : bool) (w w' : world) :
  (∀ w1 w2,
     checks.checkdir makedirs (dirname path) create 488 w = (checks.Done tt, w1) →
     open_wb path w1 = (Ok tt, w2) →
     checks.isfile w2 path = true ∧
     checks.isdir w2 (dirname path) = checks.isdir w1 (dirname path)) →
  (∀ w1, makedirs (dirname path) 488%Z w = (Ok tt, w1) →
         checks.isdir w1 (dirname path) = true) →
  checks.checkfile makedirs open_wb dirname path create w = (checks.Done tt, w') →
  checks.isfile w' path = true ∧
  checks.isdir w' (dirname path) = true ∧
  ∀ create',
    checks.checkfile makedirs open_wb dirname path create' w'
      = (checks.Done tt, w').
Proof.
  intros Hopen Hmk Hrun.
  unfold checks.checkfile in Hrun.
  destruct (checks.checkdir makedirs (dirname path) create 488 w)
    as [[[]|e] w1] eqn:Hdir; [|done].
  pose proof (checkdir_done_isdir makedirs (dirname path) create 488 w w1
                Hmk Hdir) as Hisdir.
  assert (checks.isfile w' path = true ∧ checks.isdir w' (dirname path) = true)
    as [Hfile Hparent].
  { destruct (checks.isfile w1 path) eqn:Hf; simpl in Hrun.
    - by injection Hrun as <-.
    - destruct (checks.exists_ w1 path); [done|].
      destruct create; [|done].
      unfold checks.lift_io in Hrun.
      destruct (open_wb path w1) as [[[]|e] w2] eqn:Ho; [|done].
      injection Hrun as <-.
      destruct (Hopen w1 w2 eq_refl Ho) as [? Hsame].
      by rewrite Hsame. }
  split; [done|]. split; [done|]. intros create'.
  unfold checks.checkfile.
  rewrite (checkdir_isdir makedirs (dirname path) create' 488 w' Hparent).
  by rewrite Hfile.
Qed.

Lemma checkfile_returns_file_witness :
  checks.isfile
    (checks.checkfile checks.sample_makedirs checks.sample_open_wb
       checks.sample_dirname "store/item.ics" true sample.linux).2
    "store/item.ics" = true ∧
  checks.isdir
    (checks.checkfile checks.sample_makedirs checks.sample_open_wb
       checks.sample_dirname "store/item.ics" true sample.linux).2
    (checks.sample_dirname "store/item.ics") = true ∧
  ∀ create',
    checks.checkfile checks.sample_makedirs checks.sample_open_wb
      checks.sample_dirname "store/item.ics" create'
      (checks.checkfile checks.sample_makedirs checks.sample_open_wb
         checks.sample_dirname "store/item.ics" true sample.linux).2
    = (checks.Done tt,
       (checks.checkfile checks.sample_makedirs checks.sample_open_wb
          checks.sample_dirname "store/item.ics" true sample.linux).2).
Proof.
  refine (checkfile_returns_file checks.sample_makedirs checks.sample_open_wb
            checks.sample_dirname "store/item.ics" true sample.linux _ _ _ _).
  - intros w1 w2 Hdir Hopen.
    vm_compute in Hdir. injection Hdir as <-.
    vm_compute in Hopen. injection Hopen as <-.
    vm_compute. split; reflexivity.
  - intros w1 Hmk. vm_compute in Hmk. injection Hmk as <-.
    vm_compute. reflexivity.
  - vm_compute. reflexivity.
Defined.

(** X22: [checkfile] changes the world only when [create] is set and
    the parent directory or the file is missing. Without [create], or with
    something at both paths, it leaves the world as it is and returns
    exactly when the parent is a directory and the path a regular file; in
    particular a file that is there is never opened for writing. *)
Theorem checkfile_only_looks (makedirs : string → Z → io unit)
    (open_wb : string → io unit) (dirname : string → string)
    (path : string) (create : bool) (w : world) :
  create = false ∨
    (checks.exists_ w (dirname path) = true ∧ checks.exists_ w path = true) →
  (checks.checkfile makedirs open_wb dirname path create w).2 = w ∧
  ((checks.checkfile makedirs open_wb dirname path create w).1 = checks.Done tt
     ↔ checks.isdir w (dirname path) = true ∧ checks.isfile w path = true).
Proof.
  intros Hcase. unfold checks.checkfile.
  rewrite checkdir_looks by (destruct Hcase as [?|[? _]]; auto).
  destruct (checks.isdir w (dirname path)) eqn:Hdir.
  - destruct (checks.isfile w path) eqn:Hfile; simpl; [done|].
    destruct (checks.exists_ w path) eqn:Hex.
    + cbn [fst snd]. split; [done|]. split; [done|]. by intros [_ ?].
    + destruct Hcase as [->|[_ ?]]; [|done].
      cbn [fst snd]. split; [done|]. split; [done|]. by intros [_ ?].
  - destruct (checks.exists_ w (dirname path));
      cbn [fst snd]; (split; [done|]); (split; [done|]); by intros [? _].
Qed.

Lemma checkfile_only_looks_witness :
  (checks.checkfile checks.sample_makedirs checks.sample_open_wb
     checks.sample_dirname "store/item.ics" false sample.linux).2
    = sample.linux ∧
  ((checks.checkfile checks.sample_makedirs checks.sample_open_wb
      checks.sample_dirname "store/item.ics" false sample.linux).1
     = checks.Done tt
     ↔ checks.isdir sample.linux (checks.sample_dirname "store/item.ics") = true ∧
       checks.isfile sample.linux "store/item.ics" = true).
Proof.
  refine (checkfile_only_looks checks.sample_makedirs checks.sample_open_wb
            checks.sample_dirname "store/item.ics" false sample.linux _).
  left. reflexivity.
Defined.
